(** * Table persistence, keyless row diffs and ordered KVP iteration

    A shallow embedding of four pieces of the store:

    - [Kvp]      : [IsInOrder] of go/types/kvp.go;
    - [RowDiff]  : [convertDiff] of the keyless row differ;
    - [Nbs]      : [fsTablePersister] ([Persist], [persistTable],
                   [ConjoinAll]) of the file table persister;
    - [MemTable] : the serialisation contract of the in-memory table.

    Go values are modelled as follows.  Fixed-width integers are [Z] with
    the wrap-around written out ([uint64], [int64]).  A Go [(T, error)]
    result is a pair whose second component is an [option error].  Calls
    that leave the program (the file system, the caches, the readers of
    existing tables) are answered by an explicit environment, and every
    such call is recorded in a log carried by the world state. *)

From Stdlib Require Import ZArith Lia Strings.Byte.
From stdpp Require Import base option list sorting strings pretty gmap.

Local Open Scope Z_scope.

(** ** Machine integers *)

Module GoInt.

Definition uint64 (z : Z) : Z := z mod 2 ^ 64.

Definition int64 (z : Z) : Z := (z + 2 ^ 63) mod 2 ^ 64 - 2 ^ 63.

(** Go [int] is 64 bits wide on the platforms the store targets. *)
Definition int (z : Z) : Z := int64 z.

End GoInt.

(** ** go/types/kvp.go *)

Module Kvp.

(** [LesserValuable]: the only method [IsInOrder] uses is [Less]. *)
Class LesserValuable (K : Type) := Less : K → K → bool.

Record KVP (K V : Type) := mkKVP { Key : K; Val : V }.
Arguments mkKVP {K V} _ _.
Arguments Key {K V} _.
Arguments Val {K V} _.

(** [KVPIterator]: a mutable iterator, here with its state threaded.
    A [nil] result is [None]. *)
Class KVPIterator (K V I : Type) := {
  Next : I → option (KVP K V) * I;
  Peek : I → option (KVP K V)
}.

Section IsInOrder.
Context {K V I : Type} `{!LesserValuable K} `{!KVPIterator K V I}.

(** The [for] loop of [IsInOrder]; each unit of fuel pays for one call to
    [Next]. *)
Fixpoint IsInOrder_loop (fuel : nat) (itr : I) (prev : KVP K V) (count : Z)
  : option (bool * Z) :=
  match fuel with
  | O => None
  | S fuel' =>
      let '(curr, itr') := Next itr in
      match curr with
      | None => Some (true, count)
      | Some c =>
          if Less (Key c) (Key prev) then Some (false, count)
          else IsInOrder_loop fuel' itr' c (GoInt.int (count + 1))
      end
  end.

Definition IsInOrder (fuel : nat) (itr : I) : option (bool * Z) :=
  let '(prev, itr') := Next itr in
  match prev with
  | None => Some (true, 0)
  | Some p => IsInOrder_loop fuel itr' p 1
  end.

(** [yields itr l]: successive calls to [Next] return the pairs of [l] and
    then [nil]. *)
Inductive yields : I → list (KVP K V) → Prop :=
| yields_nil itr itr' :
    Next itr = (None, itr') → yields itr []
| yields_cons itr itr' p l :
    Next itr = (Some p, itr') → yields itr' l → yields itr (p :: l).

(** No key is strictly less than the key just before it. *)
Definition in_order (l : list (KVP K V)) : Prop :=
  ∀ (i : nat) p c, l !! i = Some p → l !! S i = Some c →
                   Less (Key c) (Key p) = false.

(** The pair at position [n] is the first one out of order, so [n] pairs
    were consumed before it. *)
Definition first_out_of_order (l : list (KVP K V)) (n : Z) : Prop :=
  ∃ (k : nat) p c,
    n = Z.of_nat (S k) ∧ l !! k = Some p ∧ l !! S k = Some c ∧
    Less (Key c) (Key p) = true ∧ in_order (take (S k) l).

End IsInOrder.

(** The iterator over a [KVPSlice]. *)
#[global] Instance slice_iterator {K V} : KVPIterator K V (list (KVP K V)) := {
  Next s := match s with [] => (None, []) | p :: s' => (Some p, s') end;
  Peek s := head s
}.

(** Keys that are integers, compared by value. *)
#[global] Instance Z_lesser : LesserValuable Z := Z.ltb.

End Kvp.


(** ** Bytes *)

#[global] Instance byte_eq_decision : EqDecision byte := Byte.byte_eq_dec.

(** ** Go results *)

(** A Go [error] value; [nil] is [None] of [option error]. *)
Definition error : Type := string.

(** A call either returns or panics (a failed type assertion). *)
Inductive outcome (A : Type) : Type :=
| Returns (a : A)
| Panics.
Arguments Returns {A} _.
Arguments Panics {A}.

(** A call that waits on channels finishes, panics, or blocks for ever
    because nothing more arrives; [Starved] is the model running out of
    fuel. *)
Inductive run (A : Type) : Type :=
| Finished (a : A)
| Panicked
| Blocked
| Starved.
Arguments Finished {A} _.
Arguments Panicked {A}.
Arguments Blocked {A}.
Arguments Starved {A}.

(** ** [KVPSlice] and its [sort.Interface] methods *)

Module KVPSlice.

Section Methods.
Context {K V : Type} `{!Kvp.LesserValuable K}.

(** The index expression [kvps[i]]: out of range it panics. *)
Definition at_index (kvps : list (Kvp.KVP K V)) (i : Z)
  : outcome (Kvp.KVP K V) :=
  if (0 <=? i) && (i <? Z.of_nat (length kvps)) then
    match kvps !! Z.to_nat i with
    | Some p => Returns p
    | None => Panics
    end
  else Panics.

Definition Len (kvps : list (Kvp.KVP K V)) : Z := Z.of_nat (length kvps).

Definition Less (kvps : list (Kvp.KVP K V)) (i j : Z) : outcome bool :=
  match at_index kvps i, at_index kvps j with
  | Returns a, Returns b => Returns (Kvp.Less (Kvp.Key a) (Kvp.Key b))
  | _, _ => Panics
  end.

(** [kvps[i], kvps[j] = kvps[j], kvps[i]]; the slice is updated in place
    and returned here. *)
Definition Swap (kvps : list (Kvp.KVP K V)) (i j : Z)
  : outcome (list (Kvp.KVP K V)) :=
  match at_index kvps i, at_index kvps j with
  | Returns a, Returns b =>
      Returns (<[Z.to_nat j := a]> (<[Z.to_nat i := b]> kvps))
  | _, _ => Panics
  end.

End Methods.

End KVPSlice.

(** ** The keyless row differ: [convertDiff] *)

Module RowDiff.

(** [types.DiffChangeType]; [DiffChangeUnknown] stands for every value that
    is none of the three named constants (the [default] case). *)
Inductive DiffChangeType : Type :=
| DiffChangeAdded
| DiffChangeRemoved
| DiffChangeModified
| DiffChangeUnknown (code : Z).

Section ConvertDiff.

(** [types.Tuple] and its accessor are declared outside the differ. *)
Variable Tuple : Type.

(** [types.Value], as far as [convertDiff] tells values apart. *)
Inductive Value : Type :=
| UintVal (n : Z)
| TupleVal (t : Tuple)
| OtherVal.

Variable Tuple_Get : Tuple → Z → option Value * option error.
Variable KeylessCardinalityValIdx : Z.
Variable HumanReadableString : Value → string.

(** [diff.Difference].  [OldValue] and [NewValue] may be [nil]; the key of a
    difference read from the diff channel is always present. *)
Record Difference : Type := mkDifference {
  ChangeType : DiffChangeType;
  OldValue : option Value;
  NewValue : option Value;
  KeyValue : Value
}.

(** The block that reads [oldCard] (and, again, [newCard]):
    [v, err := x.(types.Tuple).Get(row.KeylessCardinalityValIdx)] followed by
    [uint64(v.(types.Uint))]; a [nil] value leaves the cardinality at 0. *)
Definition cardinality (v : option Value) : outcome (Z * option error) :=
  match v with
  | None => Returns (0, None)
  | Some (TupleVal t) =>
      match Tuple_Get t KeylessCardinalityValIdx with
      | (_, Some err) => Returns (0, Some err)
      | (Some (UintVal n), None) => Returns (GoInt.uint64 n, None)
      | (_, None) => Panics
      end
  | Some _ => Panics
  end.

Definition convertDiff (df : Difference)
  : outcome (Difference * Z * option error) :=
  match cardinality (OldValue df) with
  | Panics => Panics
  | Returns (_, Some err) => Returns (df, 0, Some err)
  | Returns (oldCard, None) =>
      match cardinality (NewValue df) with
      | Panics => Panics
      | Returns (_, Some err) => Returns (df, 0, Some err)
      | Returns (newCard, None) =>
          match ChangeType df with
          | DiffChangeRemoved => Returns (df, oldCard, None)
          | DiffChangeAdded => Returns (df, newCard, None)
          | DiffChangeModified =>
              let delta :=
                GoInt.int64 (GoInt.int64 newCard - GoInt.int64 oldCard) in
              if 0 <? delta then
                Returns (mkDifference DiffChangeAdded None (NewValue df)
                                      (KeyValue df),
                         GoInt.uint64 delta, None)
              else if delta <? 0 then
                Returns (mkDifference DiffChangeRemoved (OldValue df) None
                                      (KeyValue df),
                         GoInt.uint64 delta, None)
              else
                Returns (df, 0,
                         Some ("diff with delta = 0 for key: "
                                 +:+ HumanReadableString (KeyValue df)))
          | DiffChangeUnknown code =>
              Returns (df, 0,
                       Some ("unexpected DiffChange type " +:+ pretty code))
          end
      end
  end.

(** *** [GetDiffs]

    What a [select] of [GetDiffs] receives, in the order the differ sees
    it: the timeout, the cancellation of the group (with what [eg.Wait]
    then returns), a difference from the channel, or the closing of the
    channel (with what [eg.Wait] returns). *)
Inductive select_event : Type :=
| SelTimeout
| SelDone (waitErr : option error)
| SelRecv (d : Difference)
| SelClosed (waitErr : option error).

(** [AsyncDiffer.GetDiffs]: the [for] loop around the [select].  Every
    received difference is a variable of its own, so the slice of pointers
    is the list of the differences. *)
Fixpoint AsyncDiffer_loop (events : list select_event) (numDiffs : Z)
    (diffs : list Difference)
  : run (option (list Difference) * bool * option error
         * list select_event) :=
  match events with
  | [] => Blocked
  | SelRecv d :: rest =>
      let diffs := diffs ++ [d] in
      if negb (numDiffs =? 0) && (numDiffs =? Z.of_nat (length diffs))
      then Finished (Some diffs, true, None, rest)
      else AsyncDiffer_loop rest numDiffs diffs
  | SelClosed waitErr :: rest => Finished (Some diffs, false, waitErr, rest)
  | SelTimeout :: rest => Finished (Some diffs, true, None, rest)
  | SelDone waitErr :: rest => Finished (None, false, waitErr, rest)
  end.

(** [make([]*diff.Difference, 0, ad.bufferSize)] panics on a negative
    capacity. *)
Definition AsyncDiffer_GetDiffs (bufferSize numDiffs : Z)
    (events : list select_event)
  : run (option (list Difference) * bool * option error
         * list select_event) :=
  if bufferSize <? 0 then Panicked
  else AsyncDiffer_loop events numDiffs [].

(** The fields of [keylessDiffer] next to the embedded [AsyncDiffer]. *)
Record keylessDiffer : Type := mkKeylessDiffer {
  df : Difference;
  copiesLeft : Z
}.

(** The only pointer [keylessDiffer.GetDiffs] ever stores: [&kd.df].  All
    the entries it fills share the one field and read what it holds when
    they are read. *)
Inductive diff_ptr : Type := AddrOfDf.

(** The inner loop, which fills [diffs] with copies of [kd.df]. *)
Fixpoint fill_copies (fuel : nat) (numDiffs : Z)
    (diffs : list (option diff_ptr)) (idx copies : Z)
  : run (list (option diff_ptr) * Z * Z) :=
  if (idx <? numDiffs) && (0 <? copies) then
    match fuel with
    | O => Starved
    | S fuel' =>
        if (0 <=? idx) && (idx <? Z.of_nat (length diffs)) then
          fill_copies fuel' numDiffs
            (<[Z.to_nat idx := Some AddrOfDf]> diffs)
            (GoInt.int (idx + 1)) (GoInt.uint64 (copies - 1))
        else Panicked
    end
  else Finished (diffs, idx, copies).

(** The outer loop.  The result is the slice ([None] for [nil]), [more],
    the error, the differ as the call leaves it, and the events not yet
    seen. *)
Fixpoint keylessDiffer_loop (events : list select_event) (numDiffs : Z)
    (diffs : list (option diff_ptr)) (idx : Z) (kd : keylessDiffer)
  : run (option (list (option diff_ptr)) * bool * option error
         * keylessDiffer * list select_event) :=
  match fill_copies (Z.to_nat (numDiffs - idx)) numDiffs diffs idx
                    (copiesLeft kd) with
  | Finished (diffs, idx, copies) =>
      let kd := mkKeylessDiffer (df kd) copies in
      if idx =? numDiffs then Finished (Some diffs, true, None, kd, events)
      else
        match events with
        | [] => Blocked
        | SelTimeout :: rest => Finished (Some diffs, true, None, kd, rest)
        | SelDone waitErr :: rest =>
            Finished (None, false, waitErr, kd, rest)
        | SelClosed _ :: rest =>
            Finished (Some (take (Z.to_nat idx) diffs), false, None, kd,
                      rest)
        | SelRecv d :: rest =>
            match convertDiff d with
            | Panics => Panicked
            | Returns (df', copies', err) =>
                let kd := mkKeylessDiffer df' copies' in
                match err with
                | Some e => Finished (None, false, Some e, kd, rest)
                | None => keylessDiffer_loop rest numDiffs diffs idx kd
                end
            end
        end
  | Panicked => Panicked
  | Blocked => Blocked
  | Starved => Starved
  end.

(** [make([]*diff.Difference, numDiffs)] panics on a negative length. *)
Definition keylessDiffer_GetDiffs (numDiffs : Z)
    (events : list select_event) (kd : keylessDiffer)
  : run (option (list (option diff_ptr)) * bool * option error
         * keylessDiffer * list select_event) :=
  if numDiffs <? 0 then Panicked
  else
    keylessDiffer_loop events numDiffs
      (replicate (Z.to_nat numDiffs) None) 0 kd.

(** *** Readings of a run of [GetDiffs] *)

(** The differences among the events. *)
Fixpoint received (events : list select_event) : list Difference :=
  match events with
  | [] => []
  | SelRecv d :: rest => d :: received rest
  | _ :: rest => received rest
  end.

(** The copies that the differences among the events stand for: the
    counts that [convertDiff] gives them. *)
Fixpoint received_copies (events : list select_event) : Z :=
  match events with
  | [] => 0
  | SelRecv d :: rest =>
      match convertDiff d with
      | Returns (_, count, None) => count
      | _ => 0
      end + received_copies rest
  | _ :: rest => received_copies rest
  end.

(** A slice whose first [k] entries point to [kd.df] and whose last [m]
    entries are [nil]. *)
Definition filled_slice (k m : nat) : list (option diff_ptr) :=
  replicate k (Some AddrOfDf) ++ replicate m None.

(** The number of entries of a slice that are not [nil]. *)
Definition pointers (ds : list (option diff_ptr)) : Z :=
  Z.of_nat (length (filter is_Some ds)).

End ConvertDiff.

Arguments UintVal {Tuple} _.
Arguments TupleVal {Tuple} _.
Arguments OtherVal {Tuple}.
Arguments mkDifference {Tuple} _ _ _ _.
Arguments ChangeType {Tuple} _.
Arguments OldValue {Tuple} _.
Arguments NewValue {Tuple} _.
Arguments KeyValue {Tuple} _.
Arguments SelTimeout {Tuple}.
Arguments SelDone {Tuple} _.
Arguments SelRecv {Tuple} _.
Arguments SelClosed {Tuple} _.
Arguments mkKeylessDiffer {Tuple} _ _.
Arguments df {Tuple} _.
Arguments copiesLeft {Tuple} _.
Arguments received {Tuple} _.

(** [tableDontDescendLists]: the kinds of values and the test for
    primitive kinds are declared by the value store. *)
Section DontDescend.
Context {Val NomsKind : Type} `{!EqDecision NomsKind}.
Variable Kind : Val → NomsKind.
Variable IsPrimitiveKind : NomsKind → bool.
Variables TupleKind RefKind : NomsKind.

Definition tableDontDescendLists (v1 v2 : Val) : bool :=
  let kind := Kind v1 in
  negb (IsPrimitiveKind kind) && bool_decide (kind ≠ TupleKind)
    && bool_decide (kind = Kind v2) && bool_decide (kind ≠ RefKind).

End DontDescend.

(** A keyless row as a tuple of unsigned fields: a tag and, at index 1, the
    number of copies of the row. *)
Definition uint_tuple_get (t : list Z) (i : Z)
  : option (Value (list Z)) * option error :=
  match t !! Z.to_nat i with
  | Some n => (Some (UintVal n), None)
  | None => (None, Some "tuple index out of range")
  end.

Definition keyless_row (card : Z) : option (Value (list Z)) :=
  Some (TupleVal [0; card]).

Definition convert_keyless : Difference (list Z) → _ :=
  convertDiff (list Z) uint_tuple_get 1 (λ _, "k").

Definition keyless_GetDiffs :=
  keylessDiffer_GetDiffs (list Z) uint_tuple_get 1 (λ _, "k").

(** A row added in [card] copies under key [key]. *)
Definition added_row (key card : Z) : Difference (list Z) :=
  mkDifference DiffChangeAdded None (keyless_row card) (UintVal key).

End RowDiff.


(** ** The file table persister *)

Module Nbs.

(** [addr], a 20-byte hash, read as a big-endian number. *)
Definition addr : Type := N.

Definition tempTablePrefix : string := "nbs_table_".

(** [filepath.Join] of a directory and a file name. *)
Definition filepath_Join (dir name : string) : string := dir +:+ "/" +:+ name.

(** What the persister uses and does not define: the table index and its
    parser, chunk sources and their readers, [io.CopyN], the rendering of an
    address as a file name, and the naming of a conjoined table. *)
Class Externals : Type := {
  tableIndex : Type;
  io_Reader : Type;
  chunkSource : Type;
  emptyChunkSource : chunkSource;
  reader : chunkSource → io_Reader * option error;
  io_CopyN : io_Reader → Z → list byte * option error;
  addr_String : addr → string;
  parseTableIndex : list byte → tableIndex * option error;
  nameFromSuffixes : list byte → addr
}.

Section Persister.
Context `{!Externals}.

Record sourceWithSize : Type := mkSourceWithSize {
  source : chunkSource;
  dataLen : Z
}.

(** [compactionPlan]; [sws] is [plan.sources.sws]. *)
Record compactionPlan : Type := mkPlan {
  sws : list sourceWithSize;
  mergedIndex : list byte;
  chunkCount : Z;
  suffixes : list byte
}.

(** The in-memory table and the conjoin planner live in other files. *)
Class Collaborators : Type := {
  memTable : Type;
  chunkReader : Type;
  mt_write : memTable → chunkReader → addr * list byte * Z * option error;
  planConjoin : list chunkSource → compactionPlan * option error
}.
Context `{!Collaborators}.

(** [indexCache] is [false] for a [nil] cache; [fc] is never [nil]. *)
Record fsTablePersister : Type := mkPersister {
  dir : string;
  indexCache : bool
}.

(** Every call that leaves the persister. *)
Inductive event : Type :=
| EvTempFile (dir prefix : string)
| EvCopy (path : string)
| EvReader
| EvCopyN (path : string) (n : Z)
| EvWrite (path : string)
| EvClose (path : string)
| EvParse
| EvLockEntry (name : addr)
| EvPut (name : addr)
| EvUnlockEntry (name : addr)
| EvShrinkCache
| EvRename (oldpath newpath : string)
| EvOpen (name : addr) (chunkCount : Z).

#[global] Instance event_eq_dec : EqDecision event.
Proof. solve_decision. Defined.

(** The directory and the calls made so far.  The index cache and the
    file-handle cache are not among the sources: the calls to them are
    recorded in the log, their errors are the environment's, and nothing is
    said of what they hold. *)
Record world : Type := mkWorld {
  w_fs : gmap string (list byte);
  w_log : list event
}.

(** How the environment answers the calls of one operation: the random
    suffix [ioutil.TempFile] picks (or its error), a write that fails after
    some bytes, and the errors of the remaining calls. *)
Record env : Type := mkEnv {
  e_TempFile : string * option error;
  e_Copy : option (nat * error);
  e_Write : option (nat * error);
  e_Close : option error;
  e_unlockEntry : option error;
  e_ShrinkCache : option error;
  e_Rename : option error;
  e_Open : option chunkSource * option error
}.

Definition io (A : Type) : Type := world → world * A.

Definition ret {A} (a : A) : io A := λ w, (w, a).

Definition bind {A B} (m : io A) (k : A → io B) : io B :=
  λ w, let '(w', a) := m w in k a w'.

Notation "'do' x <- m ; k" := (bind m (fun x => k))
  (at level 10, x pattern, m at level 100, k at level 200).

Definition emit (e : event) : io unit :=
  λ w, (mkWorld (w_fs w) (w_log w ++ [e]), tt).

Definition get_fs : io (gmap string (list byte)) := λ w, (w, w_fs w).

Definition set_fs (fs : gmap string (list byte)) : io unit :=
  λ w, (mkWorld fs (w_log w), tt).

Definition append_file (path : string) (bs : list byte) : io unit :=
  do fs <- get_fs;
  set_fs (alter (λ c, c ++ bs) path fs).

(** [ioutil.TempFile]: a new, empty file whose name is the prefix followed
    by a suffix of the environment's choice; the file is created only if no
    file has that name. *)
Definition ioutil_TempFile (E : env) (d prefix : string)
  : io (string * option error) :=
  do _ <- emit (EvTempFile d prefix);
  match e_TempFile E with
  | (_, Some err) => ret ("", Some err)
  | (suffix, None) =>
      let path := filepath_Join d (prefix +:+ suffix) in
      do fs <- get_fs;
      match fs !! path with
      | Some _ => ret ("", Some "file exists")
      | None => do _ <- set_fs (<[path := []]> fs); ret (path, None)
      end
  end.

(** A write of [bs] to the file, whole or cut short by an error. *)
Definition write_file (o : option (nat * error)) (path : string)
    (bs : list byte) : io (option error) :=
  match o with
  | None => do _ <- append_file path bs; ret None
  | Some (n, err) => do _ <- append_file path (take n bs); ret (Some err)
  end.

(** [io.Copy(temp, bytes.NewReader(data))]. *)
Definition io_Copy (E : env) (temp : string) (data : list byte)
  : io (option error) :=
  do _ <- emit (EvCopy temp); write_file (e_Copy E) temp data.

(** [temp.Write(bs)]. *)
Definition file_Write (E : env) (temp : string) (bs : list byte)
  : io (option error) :=
  do _ <- emit (EvWrite temp); write_file (e_Write E) temp bs.

(** [io.CopyN(temp, r, n)]: the bytes it moves reach the file, and their
    number is reported. *)
Definition copyN_to (temp : string) (r : io_Reader) (n : Z)
  : io (Z * option error) :=
  do _ <- emit (EvCopyN temp n);
  let '(bs, err) := io_CopyN r n in
  do _ <- append_file temp bs;
  ret (Z.of_nat (length bs), err).

Definition file_Close (E : env) (temp : string) : io (option error) :=
  do _ <- emit (EvClose temp); ret (e_Close E).

Definition lockEntry (name : addr) : io unit := emit (EvLockEntry name).

Definition unlockEntry (E : env) (name : addr) : io (option error) :=
  do _ <- emit (EvUnlockEntry name); ret (e_unlockEntry E).

(** [ftp.indexCache.put(name, index)]: the index leaves the persister. *)
Definition put (name : addr) (index : tableIndex) : io unit :=
  emit (EvPut name).

Definition ShrinkCache (E : env) : io (option error) :=
  do _ <- emit EvShrinkCache; ret (e_ShrinkCache E).

(** [os.Rename]: all or nothing. *)
Definition os_Rename (E : env) (oldpath newpath : string)
  : io (option error) :=
  do _ <- emit (EvRename oldpath newpath);
  match e_Rename E with
  | Some err => ret (Some err)
  | None =>
      do fs <- get_fs;
      match fs !! oldpath with
      | None => ret (Some "no such file or directory")
      | Some c => do _ <- set_fs (<[newpath := c]> (delete oldpath fs)); ret None
      end
  end.

(** [ftp.Open], that is [newMmapTableReader]. *)
Definition Open (E : env) (name : addr) (count : Z)
  : io (option chunkSource * option error) :=
  do _ <- emit (EvOpen name count); ret (e_Open E).

(** [index, ferr := parseTableIndex(bs)]. *)
Definition parse_index (bs : list byte) : io (tableIndex * option error) :=
  do _ <- emit EvParse; ret (parseTableIndex bs).

(** A deferred [ferr = closeErr] (or [unlockErr]) that fires only when the
    function is about to return no error. *)
Definition or_else (ferr deferred : option error) : option error :=
  match ferr with
  | None => deferred
  | Some _ => ferr
  end.

(** The function literal of [persistTable]: it writes the temporary file
    and returns its name.  The deferred unlock runs before the deferred
    close. *)
Definition persistTable_temp (ftp : fsTablePersister) (E : env)
    (name : addr) (data : list byte) : io (string * option error) :=
  do (temp, ferr) <- ioutil_TempFile E (dir ftp) tempTablePrefix;
  match ferr with
  | Some err => ret ("", Some err)
  | None =>
      do (tempName, ferr) <-
        (do ferr <- io_Copy E temp data;
         match ferr with
         | Some err => ret ("", Some err)
         | None =>
             do (index, ferr) <- parse_index data;
             match ferr with
             | Some err => ret ("", Some err)
             | None =>
                 if indexCache ftp then
                   do _ <- lockEntry name;
                   do _ <- put name index;
                   do unlockErr <- unlockEntry E name;
                   ret (temp, or_else None unlockErr)
                 else ret (temp, None)
             end
         end);
      do closeErr <- file_Close E temp;
      ret (tempName, or_else ferr closeErr)
  end.

Definition persistTable (ftp : fsTablePersister) (E : env) (name : addr)
    (data : list byte) (count : Z) : io (option chunkSource * option error) :=
  if count =? 0 then ret (Some emptyChunkSource, None)
  else
    do (tempName, err) <- persistTable_temp ftp E name data;
    match err with
    | Some e => ret (None, Some e)
    | None =>
        let newName := filepath_Join (dir ftp) (addr_String name) in
        do err <- ShrinkCache E;
        match err with
        | Some e => ret (None, Some e)
        | None =>
            do err <- os_Rename E tempName newName;
            match err with
            | Some e => ret (None, Some e)
            | None => Open E name count
            end
        end
    end.

Definition Persist (ftp : fsTablePersister) (E : env) (mt : memTable)
    (haver : chunkReader) : io (option chunkSource * option error) :=
  let '(name, data, count, err) := mt_write mt haver in
  match err with
  | Some e => ret (Some emptyChunkSource, Some e)
  | None => persistTable ftp E name data count
  end.

(** The [for] loop of [ConjoinAll] over [plan.sources.sws]. *)
Fixpoint copy_sources (temp : string) (l : list sourceWithSize)
  : io (option error) :=
  match l with
  | [] => ret None
  | s :: rest =>
      do _ <- emit EvReader;
      let '(r, ferr) := reader (source s) in
      match ferr with
      | Some err => ret (Some err)
      | None =>
          do (n, ferr) <- copyN_to temp r (GoInt.int64 (dataLen s));
          match ferr with
          | Some err => ret (Some err)
          | None =>
              if bool_decide (GoInt.uint64 n = dataLen s)
              then copy_sources temp rest
              else ret (Some "failed to copy all data")
          end
      end
  end.

(** The function literal of [ConjoinAll]. *)
Definition ConjoinAll_temp (ftp : fsTablePersister) (E : env)
    (plan : compactionPlan) (name : addr) : io (string * option error) :=
  do (temp, ferr) <- ioutil_TempFile E (dir ftp) tempTablePrefix;
  match ferr with
  | Some err => ret ("", Some err)
  | None =>
      do (tempName, ferr) <-
        (do ferr <- copy_sources temp (sws plan);
         match ferr with
         | Some err => ret ("", Some err)
         | None =>
             do ferr <- file_Write E temp (mergedIndex plan);
             match ferr with
             | Some err => ret ("", Some err)
             | None =>
                 do (index, ferr) <- parse_index (mergedIndex plan);
                 match ferr with
                 | Some err => ret ("", Some err)
                 | None =>
                     do _ <- (if indexCache ftp then put name index
                              else ret tt);
                     ret (temp, None)
                 end
             end
         end);
      do closeErr <- file_Close E temp;
      ret (tempName, or_else ferr closeErr)
  end.

Definition ConjoinAll (ftp : fsTablePersister) (E : env)
    (sources : list chunkSource) : io (option chunkSource * option error) :=
  let '(plan, err) := planConjoin sources in
  match err with
  | Some e => ret (Some emptyChunkSource, Some e)
  | None =>
      if chunkCount plan =? 0 then ret (Some emptyChunkSource, None)
      else
        let name := nameFromSuffixes (suffixes plan) in
        do (tempName, err) <- ConjoinAll_temp ftp E plan name;
        match err with
        | Some e => ret (None, Some e)
        | None =>
            do err <-
              os_Rename E tempName
                        (filepath_Join (dir ftp) (addr_String name));
            match err with
            | Some e => ret (None, Some e)
            | None => Open E name (chunkCount plan)
            end
        end
  end.

(** *** Readings of the log *)

(** How many times the index parser was called. *)
Definition parse_calls (l : list event) : nat :=
  length (filter (λ e, e = EvParse) l).

(** Every [put] of a name happens while that name is locked, and the lock
    is released afterwards: [locked] holds the names locked so far. *)
Fixpoint puts_locked (locked : list addr) (l : list event) : bool :=
  match l with
  | [] => true
  | EvLockEntry n :: l' => puts_locked (n :: locked) l'
  | EvUnlockEntry n :: l' =>
      puts_locked (filter (λ m, m ≠ n) locked) l'
  | EvPut n :: l' =>
      bool_decide (n ∈ locked) && bool_decide (EvUnlockEntry n ∈ l')
        && puts_locked locked l'
  | _ :: l' => puts_locked locked l'
  end.

(** Every table that is created is installed and opened only after the
    file-handle cache was shrunk: [shrunk] tells whether [ShrinkCache] was
    called since the temporary file of the table was created. *)
Fixpoint shrinks_before_install (shrunk : bool) (l : list event) : bool :=
  match l with
  | [] => true
  | EvTempFile _ _ :: l' => shrinks_before_install false l'
  | EvShrinkCache :: l' => shrinks_before_install true l'
  | EvRename _ _ :: l' => shrunk && shrinks_before_install shrunk l'
  | EvOpen _ _ :: l' => shrunk && shrinks_before_install shrunk l'
  | _ :: l' => shrinks_before_install shrunk l'
  end.

(** The calls to the index cache among the calls logged. *)
Fixpoint cache_calls (l : list event) : list event :=
  match l with
  | [] => []
  | EvLockEntry n :: l' => EvLockEntry n :: cache_calls l'
  | EvPut n :: l' => EvPut n :: cache_calls l'
  | EvUnlockEntry n :: l' => EvUnlockEntry n :: cache_calls l'
  | _ :: l' => cache_calls l'
  end.

(** The bytes [io.CopyN] moves out of a source of the plan, and their
    number. *)
Definition moved (s : sourceWithSize) : list byte :=
  (io_CopyN (reader (source s)).1 (GoInt.int64 (dataLen s))).1.

Definition copied (s : sourceWithSize) : Z := Z.of_nat (length (moved s)).

(** What the plan asks of a source, met: its reader opened, [io.CopyN]
    reported no error, and the bytes moved are as many as declared. *)
Definition copied_in_full (s : sourceWithSize) : Prop :=
  (reader (source s)).2 = None ∧
  (io_CopyN (reader (source s)).1 (GoInt.int64 (dataLen s))).2 = None ∧
  GoInt.uint64 (copied s) = dataLen s.

(** The image of the conjoined table: what was moved out of every source,
    in plan order, then the merged index. *)
Definition plan_image (plan : compactionPlan) : list byte :=
  mjoin (map moved (sws plan)) ++ mergedIndex plan.

(** The name of a temporary file of the persister. *)
Definition temp_path (ftp : fsTablePersister) (suffix : string) : string :=
  filepath_Join (dir ftp) (tempTablePrefix +:+ suffix).

(** The name under which table [a] is installed. *)
Definition final_path (ftp : fsTablePersister) (a : addr) : string :=
  filepath_Join (dir ftp) (addr_String a).

End Persister.

End Nbs.


(** ** The in-memory table *)

Module MemTable.

(** Modelled from the spec: a chunk is an immutable payload named by its
    address (section 3). *)
Definition chunk : Type := N * list byte.

(** Modelled from the spec: payloads compared byte by byte, the shorter
    first; it only serves to order chunks that share an address. *)
Fixpoint bytes_leb (d1 d2 : list byte) : bool :=
  match d1, d2 with
  | [], _ => true
  | _ :: _, [] => false
  | b1 :: d1', b2 :: d2' =>
      (Byte.to_N b1 <? Byte.to_N b2)%N
      || ((Byte.to_N b1 =? Byte.to_N b2)%N && bytes_leb d1' d2')
  end.

(** Modelled from the spec: the canonical order that makes name and bytes
    independent of the order of insertion is the order of the addresses
    (section 9).  Two chunks that share an address, which content
    addressing rules out, are ordered by their payloads, so that the order
    is canonical for every table. *)
Definition chunk_leb (c1 c2 : chunk) : bool :=
  (c1.1 <? c2.1)%N || ((c1.1 =? c2.1)%N && bytes_leb c1.2 c2.2).

(** Modelled from the spec: the canonical order, as a relation. *)
Definition chunk_le (c1 c2 : chunk) : Prop := chunk_leb c1 c2 = true.

#[global] Instance chunk_le_dec : RelDecision chunk_le.
Proof. intros c1 c2. unfold chunk_le. apply _. Defined.

(** Modelled from the spec: the memory table owns the chunks not yet
    persisted, here in the order they were added (section 3). *)
Record memTable : Type := mkMemTable { chunks : list chunk }.

(** Modelled from the spec: the writer fills the table chunk by chunk; a
    chunk may be added more than once. *)
Definition addChunk (mt : memTable) (a : N) (data : list byte) : memTable :=
  mkMemTable (chunks mt ++ [(a, data)]).

Section Write.

(** The hash that names a table, the checksum of a chunk and the byte
    layout of the index block are left open. *)
Variable name_of : list N → N.
Variable checksum : list byte → Z.
Variable encode_index : list (N * Z * Z * Z) → list byte.

(** Modelled from the spec: the index maps each address to its offset in
    the data section, its length and its checksum (section 3). *)
Fixpoint index_entries (offset : Z) (cs : list chunk)
  : list (N * Z * Z * Z) :=
  match cs with
  | [] => []
  | (a, d) :: cs' =>
      (a, offset, Z.of_nat (length d), checksum d)
        :: index_entries (offset + Z.of_nat (length d)) cs'
  end.

(** Modelled from the spec: the set of chunks that [write] serialises,
    that is the chunks of the table that [haver] does not report present,
    each of them once however often it was added, in the canonical order
    (sections 4.4 and 9). *)
Definition written (mt : memTable) (haver : N → bool) : list chunk :=
  merge_sort chunk_le
    (remove_dups (filter (λ c, haver c.1 = false) (chunks mt))).

(** Modelled from the spec: [memTable.write], which is not among the
    sources (section 4.4).  It lays out the written chunks (data section,
    then the index block), names the table after the addresses written,
    and returns the name, the image, the number of chunks and no error. *)
Definition write (mt : memTable) (haver : N → bool)
  : N * list byte * Z * option error :=
  let cs := written mt haver in
  (name_of cs.*1,
   mjoin cs.*2 ++ encode_index (index_entries 0 cs),
   Z.of_nat (length cs),
   None).

(** Modelled from the spec: the memory table as the persister sees it,
    [Persist] calling this [write]; the planner stays a parameter. *)
Definition collaborators `{!Nbs.Externals}
    (planConjoin : list Nbs.chunkSource → Nbs.compactionPlan * option error)
  : Nbs.Collaborators := {|
  Nbs.memTable := memTable;
  Nbs.chunkReader := N → bool;
  Nbs.mt_write := write;
  Nbs.planConjoin := planConjoin
|}.

End Write.

End MemTable.


(** ** A small directory to run the persister in *)

Module Demo.

(** An existing table: its data section, its index block, and the data
    length its index declares. *)
Record table : Type := mkTable {
  t_data : list byte;
  t_index : list byte;
  t_len : Z
}.

(** A reader is the list of bytes it still has; [io.CopyN] moves at most
    [n] of them and reports the end of the input when they run out.  An
    index block is corrupt when it holds the byte [xff]. *)
Definition externals : Nbs.Externals := {|
  Nbs.tableIndex := nat;
  Nbs.io_Reader := list byte;
  Nbs.chunkSource := table;
  Nbs.emptyChunkSource := mkTable [] [] 0;
  Nbs.reader := λ t, (t_data t, None);
  Nbs.io_CopyN := λ r n,
    (take (Z.to_nat n) r,
     if bool_decide (Z.of_nat (length r) < n) then Some "EOF" else None);
  Nbs.addr_String := λ a, "t" +:+ pretty a;
  Nbs.parseTableIndex := λ bs,
    (length bs,
     if bool_decide (xff ∈ bs) then Some "corrupt index" else None);
  Nbs.nameFromSuffixes := λ bs, N.of_nat (length bs)
|}.

(** A memory table stands for what it serialises to; the planner conjoins
    all the sources it is given. *)
Definition collaborators : @Nbs.Collaborators externals := {|
  Nbs.memTable := N * list byte * Z * option error;
  Nbs.chunkReader := unit;
  Nbs.mt_write := λ mt _, mt;
  Nbs.planConjoin := λ srcs : list (@Nbs.chunkSource externals),
    (@Nbs.mkPlan externals
                (map (λ t : table, @Nbs.mkSourceWithSize externals t (t_len t))
                     srcs)
                (mjoin (map t_index srcs))
                (Z.of_nat (length srcs))
                (mjoin (map t_index srcs)),
     None)
|}.

Definition ftp : Nbs.fsTablePersister := Nbs.mkPersister "db" true.

Definition empty_dir : Nbs.world := Nbs.mkWorld ∅ [].

(** The table that [Open] returns. *)
Definition opened : @Nbs.chunkSource externals := mkTable [x01] [x02] 1.

(** Every call succeeds. *)
Definition all_ok : @Nbs.env externals :=
  Nbs.mkEnv ("001", None) None None None None None None
            (Some opened, None).


(** Every call succeeds but the closing of the temporary file. *)
Definition close_fails : @Nbs.env externals :=
  Nbs.mkEnv ("001", None) None None (Some "close failed") None None None
            (Some opened, None).

(** A directory that holds one more file. *)
Definition dir_with_manifest : Nbs.world :=
  Nbs.mkWorld {["db/manifest" := [x2a]]} [].

Definition rename_fails : @Nbs.env externals :=
  Nbs.mkEnv ("001", None) None None None None None (Some "rename failed")
            (Some opened, None).

(** A table of two chunks: data [x01 x02], index [x03]; table 7. *)
Definition mt_two : N * list byte * Z * option error :=
  (7%N, [x01; x02; x03], 2, None).

(** A table with no chunk. *)
Definition mt_none : N * list byte * Z * option error :=
  (0%N, [], 0, None).

(** A table whose index block is corrupt. *)
Definition mt_corrupt : N * list byte * Z * option error :=
  (9%N, [x01; xff], 1, None).

Definition src_a : @Nbs.chunkSource externals := mkTable [x0a; x0b] [x01] 2.
Definition src_b : @Nbs.chunkSource externals := mkTable [x0c] [x02] 1.

(** A source that holds one byte where its index declares three. *)
Definition src_short : @Nbs.chunkSource externals := mkTable [x0d] [x03] 3.

(** A source whose index block is corrupt. *)
Definition src_corrupt : @Nbs.chunkSource externals := mkTable [x0e] [xff] 1.

(** Three memory tables that hold the same two chunks: added in opposite
    orders, and with one of them added twice; a hash, a checksum and an
    index layout to serialise them. *)
Definition mt_ab : MemTable.memTable :=
  MemTable.addChunk
    (MemTable.addChunk (MemTable.mkMemTable []) 2 [x0b]) 1 [x0a; x0a].

Definition mt_ba : MemTable.memTable :=
  MemTable.addChunk
    (MemTable.addChunk (MemTable.mkMemTable []) 1 [x0a; x0a]) 2 [x0b].

Definition mt_aba : MemTable.memTable :=
  MemTable.addChunk mt_ba 1 [x0a; x0a].

Definition name_of (l : list N) : N := foldl (λ h a, h * 31 + a)%N 7%N l.

Definition checksum (d : list byte) : Z := Z.of_nat (length d).

Definition byte_of (z : Z) : byte :=
  default x00 (Byte.of_N (Z.to_N (z mod 256))).

Definition encode_index (l : list (N * Z * Z * Z)) : list byte :=
  mjoin (map (λ '(a, off, len, ck),
                [byte_of (Z.of_N a); byte_of off; byte_of len; byte_of ck])
             l)
    ++ [byte_of (Z.of_nat (length l))].

Definition Persist := @Nbs.Persist externals collaborators.
Definition ConjoinAll := @Nbs.ConjoinAll externals collaborators.

(** The path of table [a] in the directory of [ftp]. *)
Definition table_path (a : N) : string :=
  Nbs.filepath_Join (Nbs.dir ftp) (@Nbs.addr_String externals a).

(** The persister fed by the memory table of [MemTable]. *)
Definition mem_collaborators : @Nbs.Collaborators externals :=
  @MemTable.collaborators name_of checksum encode_index externals
    (@Nbs.planConjoin externals collaborators).

End Demo.


(** * Properties *)

(** ** Machine integers *)

Lemma int64_small (z : Z) : - 2 ^ 63 ≤ z < 2 ^ 63 → GoInt.int64 z = z.
Proof.
  intros Hz. unfold GoInt.int64.
  rewrite Z.mod_small by lia. lia.
Qed.

Lemma uint64_small (z : Z) : 0 ≤ z < 2 ^ 64 → GoInt.uint64 z = z.
Proof. intros Hz. unfold GoInt.uint64. by rewrite Z.mod_small. Qed.

Lemma uint64_range (z : Z) : 0 ≤ GoInt.uint64 z < 2 ^ 64.
Proof. unfold GoInt.uint64. apply Z.mod_pos_bound. lia. Qed.

Lemma int64_range (z : Z) : - 2 ^ 63 ≤ GoInt.int64 z < 2 ^ 63.
Proof.
  unfold GoInt.int64.
  pose proof (Z.mod_pos_bound (z + 2 ^ 63) (2 ^ 64)). lia.
Qed.

(** ** [IsInOrder] *)

Section IsInOrderProperties.
Context {K V I : Type} `{!Kvp.LesserValuable K} `{!Kvp.KVPIterator K V I}.
Implicit Types (l : list (Kvp.KVP K V)) (p c : Kvp.KVP K V) (itr : I).

Lemma in_order_singleton p : Kvp.in_order [p].
Proof. intros [|i] q r Hq Hr; simplify_eq/=. Qed.

Lemma in_order_nil : Kvp.in_order ([] : list (Kvp.KVP K V)).
Proof. intros i q r Hq; simplify_eq/=. Qed.

Lemma in_order_cons p c l :
  Kvp.Less (Kvp.Key c) (Kvp.Key p) = false → Kvp.in_order (c :: l) →
  Kvp.in_order (p :: c :: l).
Proof.
  intros Hpc Hl [|i] q r Hq Hr; simplify_eq/=; [done|].
  by apply (Hl i).
Qed.

(** What the loop returns once [prev] has been read and [count] pairs have
    been consumed. *)
Lemma IsInOrder_loop_spec l : ∀ itr p (count : Z) (fuel : nat),
  Kvp.yields itr l → (length l < fuel)%nat →
  0 ≤ count → count + Z.of_nat (length l) < 2 ^ 63 →
  (Kvp.in_order (p :: l) ∧
   Kvp.IsInOrder_loop fuel itr p count
     = Some (true, count + Z.of_nat (length l)))
  ∨ (∃ (k : nat) q r,
        (p :: l) !! k = Some q ∧ (p :: l) !! S k = Some r ∧
        Kvp.Less (Kvp.Key r) (Kvp.Key q) = true ∧
        Kvp.in_order (take (S k) (p :: l)) ∧
        Kvp.IsInOrder_loop fuel itr p count = Some (false, count + Z.of_nat k)).
Proof.
  induction l as [|c l IH]; intros itr p count fuel Hy Hfuel Hc Hbound;
    inversion Hy as [? ? Hnext|? itr' ? ? Hnext Hrest]; subst;
    (destruct fuel as [|fuel]; [simpl in Hfuel; lia|]); simpl; rewrite Hnext.
  - left. split; [apply in_order_singleton|]. f_equal. f_equal. lia.
  - destruct (Kvp.Less (Kvp.Key c) (Kvp.Key p)) eqn:Hless.
    + right. exists 0%nat, p, c. split_and!; try done.
      do 2 f_equal. lia.
    + unfold GoInt.int. rewrite int64_small by (simpl in Hbound; lia).
      destruct (IH itr' c (count + 1) fuel Hrest) as
        [[Hord Hres]|(k & q & r & Hq & Hr & Hqr & Hord & Hres)];
        try (simpl in *; lia).
      * left. split; [by apply in_order_cons|].
        rewrite Hres. f_equal. f_equal. simpl length. lia.
      * right. exists (S k), q, r. split_and!; try done.
        -- change (take (S (S k)) (p :: c :: l))
             with (p :: take (S k) (c :: l)).
           simpl in Hord |- *. by apply in_order_cons.
        -- rewrite Hres. f_equal. f_equal. lia.
Qed.

(** C10.  Let the iterator yield the pairs [l] and then [nil], and give the
    loop one unit of fuel per pair.  [IsInOrder] returns.  Its flag is
    [true] exactly when no key of [l] is strictly less than the key before
    it, and then the count is the number of pairs yielded.  Otherwise the
    flag is [false] and the count is the number of pairs consumed before
    the first pair that is out of order.  An iterator that yields [nil] at
    once gives [(true, 0)]. *)
Theorem IsInOrder_correct itr l (fuel : nat) :
  Kvp.yields itr l → Z.of_nat (length l) < 2 ^ 63 → (length l ≤ fuel)%nat →
  ∃ (b : bool) (n : Z),
    Kvp.IsInOrder fuel itr = Some (b, n) ∧
    (b = true ↔ Kvp.in_order l) ∧
    (b = true → n = Z.of_nat (length l)) ∧
    (b = false → Kvp.first_out_of_order l n) ∧
    (l = [] → b = true ∧ n = 0).
Proof.
  intros Hy Hlen Hfuel. unfold Kvp.IsInOrder.
  inversion Hy as [? ? Hnext|? itr' p l' Hnext Hrest]; subst; rewrite Hnext.
  - exists true, 0. split_and!; try done.
  - destruct (IsInOrder_loop_spec l' itr' p 1 fuel Hrest) as
      [[Hord Hres]|(k & q & r & Hq & Hr & Hqr & Hord & Hres)];
      try (simpl in *; lia).
    + exists true, (1 + Z.of_nat (length l')). split_and!; try done.
      simpl length. lia.
    + exists false, (1 + Z.of_nat k). split_and!; try done.
      * split; [done|]. intros Hall.
        specialize (Hall k q r Hq Hr). congruence.
      * intros _. exists k, q, r. split_and!; try done. lia.
Qed.

End IsInOrderProperties.

(** An instance of C10: the keys 1, 3, 2 are out of order at the third
    pair, after two pairs were consumed. *)
Lemma IsInOrder_correct_witness :
  ∃ (b : bool) (n : Z),
    Kvp.IsInOrder 3
      [Kvp.mkKVP 1 "a"; Kvp.mkKVP 3 "b"; Kvp.mkKVP 2 "c"] = Some (b, n) ∧
    (b = true ↔
       Kvp.in_order [Kvp.mkKVP 1 "a"; Kvp.mkKVP 3 "b"; Kvp.mkKVP 2 "c"]) ∧
    (b = true → n = 3) ∧
    (b = false →
       Kvp.first_out_of_order
         [Kvp.mkKVP 1 "a"; Kvp.mkKVP 3 "b"; Kvp.mkKVP 2 "c"] n) ∧
    ([Kvp.mkKVP 1 "a"; Kvp.mkKVP 3 "b"; Kvp.mkKVP 2 "c"] = [] →
       b = true ∧ n = 0).
Proof.
  apply (IsInOrder_correct
           [Kvp.mkKVP 1 "a"; Kvp.mkKVP 3 "b"; Kvp.mkKVP 2 "c"]
           [Kvp.mkKVP 1 "a"; Kvp.mkKVP 3 "b"; Kvp.mkKVP 2 "c"] 3).
  - repeat (eapply Kvp.yields_cons; [reflexivity|]).
    eapply Kvp.yields_nil. reflexivity.
  - simpl. lia.
  - simpl. lia.
Defined.

Example IsInOrder_out_of_order :
  Kvp.IsInOrder 3 [Kvp.mkKVP 1 "a"; Kvp.mkKVP 3 "b"; Kvp.mkKVP 2 "c"]
    = Some (false, 2).
Proof. reflexivity. Qed.

Example IsInOrder_in_order :
  Kvp.IsInOrder 3 [Kvp.mkKVP 1 "a"; Kvp.mkKVP 2 "b"; Kvp.mkKVP 2 "c"]
    = Some (true, 3).
Proof. reflexivity. Qed.

(** ** [convertDiff] *)

Section ConvertDiffProperties.
Context {Tuple : Type}.
Variable Tuple_Get : Tuple → Z → option (RowDiff.Value Tuple) * option error.
Variable idx : Z.
Variable describe : RowDiff.Value Tuple → string.

#[local] Abbreviation cardinality :=
  (RowDiff.cardinality Tuple Tuple_Get idx).
#[local] Abbreviation convertDiff :=
  (RowDiff.convertDiff Tuple Tuple_Get idx describe).

Lemma cardinality_uint64 v (card : Z) (err : option error) :
  cardinality v = Returns (card, err) → 0 ≤ card < 2 ^ 64.
Proof.
  unfold RowDiff.cardinality. intros Hc.
  repeat case_match; simplify_eq; try lia; apply uint64_range.
Qed.

(** C7.  A modified difference whose old and new rows carry the same
    cardinality makes [convertDiff] return an error, together with the
    difference as it was given and the cardinality 0. *)
Theorem convertDiff_zero_delta_is_error (df : RowDiff.Difference Tuple)
    (card : Z) :
  RowDiff.ChangeType df = RowDiff.DiffChangeModified →
  cardinality (RowDiff.OldValue df) = Returns (card, None) →
  cardinality (RowDiff.NewValue df) = Returns (card, None) →
  ∃ err : error, convertDiff df = Returns (df, 0, Some err).
Proof.
  intros Hty Hold Hnew. unfold RowDiff.convertDiff.
  rewrite Hold, Hnew, Hty. cbv zeta.
  rewrite Z.sub_diag. change (GoInt.int64 0) with 0.
  change (0 <? 0) with false. cbv iota. eauto.
Qed.

(** X4.  A modified difference whose new cardinality is the larger one
    becomes an added change without its old value, counted
    [newCard - oldCard] times. *)
Lemma convertDiff_modified_added (df : RowDiff.Difference Tuple)
    (oldCard newCard : Z) :
  RowDiff.ChangeType df = RowDiff.DiffChangeModified →
  cardinality (RowDiff.OldValue df) = Returns (oldCard, None) →
  cardinality (RowDiff.NewValue df) = Returns (newCard, None) →
  oldCard < newCard < 2 ^ 63 →
  convertDiff df =
    Returns (RowDiff.mkDifference RowDiff.DiffChangeAdded None
               (RowDiff.NewValue df) (RowDiff.KeyValue df),
             newCard - oldCard, None).
Proof.
  intros Hty Hold Hnew Hlt. unfold RowDiff.convertDiff.
  pose proof (cardinality_uint64 _ _ _ Hold).
  rewrite Hold, Hnew, Hty. cbv zeta.
  rewrite !int64_small by (rewrite ?int64_small; lia).
  destruct (Z.ltb_spec 0 (newCard - oldCard)); [|lia].
  by rewrite uint64_small by lia.
Qed.

(** A modified difference whose old cardinality is the larger one becomes
    a removed change without its new value; the count returned is
    [uint64(delta)] of the negative [delta], that is
    [2^64 - (oldCard - newCard)]. *)
Lemma convertDiff_modified_removed (df : RowDiff.Difference Tuple)
    (oldCard newCard : Z) :
  RowDiff.ChangeType df = RowDiff.DiffChangeModified →
  cardinality (RowDiff.OldValue df) = Returns (oldCard, None) →
  cardinality (RowDiff.NewValue df) = Returns (newCard, None) →
  newCard < oldCard < 2 ^ 63 →
  convertDiff df =
    Returns (RowDiff.mkDifference RowDiff.DiffChangeRemoved
               (RowDiff.OldValue df) None (RowDiff.KeyValue df),
             2 ^ 64 - (oldCard - newCard), None).
Proof.
  intros Hty Hold Hnew Hlt. unfold RowDiff.convertDiff.
  pose proof (cardinality_uint64 _ _ _ Hnew).
  rewrite Hold, Hnew, Hty. cbv zeta.
  rewrite !int64_small by (rewrite ?int64_small; lia).
  destruct (Z.ltb_spec 0 (newCard - oldCard)); [lia|].
  destruct (Z.ltb_spec (newCard - oldCard) 0); [|lia].
  do 3 f_equal. unfold GoInt.uint64.
  rewrite <- (Z.mod_add _ 1) by lia. rewrite Z.mod_small; lia.
Qed.

End ConvertDiffProperties.

(** An instance of C7: a row kept in two copies on both sides. *)
Lemma convertDiff_zero_delta_is_error_witness :
  ∃ err : error,
    RowDiff.convert_keyless
      (RowDiff.mkDifference RowDiff.DiffChangeModified
         (RowDiff.keyless_row 2) (RowDiff.keyless_row 2) (RowDiff.UintVal 7))
    = Returns
        (RowDiff.mkDifference RowDiff.DiffChangeModified
           (RowDiff.keyless_row 2) (RowDiff.keyless_row 2) (RowDiff.UintVal 7),
         0, Some err).
Proof.
  apply (convertDiff_zero_delta_is_error RowDiff.uint_tuple_get 1 (λ _, "k")
           (RowDiff.mkDifference RowDiff.DiffChangeModified
              (RowDiff.keyless_row 2) (RowDiff.keyless_row 2)
              (RowDiff.UintVal 7)) 2); reflexivity.
Defined.

(** C9.  A row that goes from three copies to one is a modified difference
    with [delta = -2].  [convertDiff] turns it into a removed change without
    its new value, but the count it returns is [uint64(-2)], which is
    18446744073709551614 and not the two copies that were removed. *)
Theorem convertDiff_removed_count_wraps :
  RowDiff.convert_keyless
    (RowDiff.mkDifference RowDiff.DiffChangeModified
       (RowDiff.keyless_row 3) (RowDiff.keyless_row 1) (RowDiff.UintVal 7))
  = Returns
      (RowDiff.mkDifference RowDiff.DiffChangeRemoved
         (RowDiff.keyless_row 3) None (RowDiff.UintVal 7),
       18446744073709551614, None).
Proof. vm_compute. reflexivity. Qed.

Example convertDiff_added_count :
  RowDiff.convert_keyless
    (RowDiff.mkDifference RowDiff.DiffChangeModified
       (RowDiff.keyless_row 1) (RowDiff.keyless_row 3) (RowDiff.UintVal 7))
  = Returns
      (RowDiff.mkDifference RowDiff.DiffChangeAdded
         None (RowDiff.keyless_row 3) (RowDiff.UintVal 7),
       2, None).
Proof. vm_compute. reflexivity. Qed.

Example demo_persist_installs :
  Nbs.w_fs (Demo.Persist Demo.ftp Demo.all_ok Demo.mt_two tt Demo.empty_dir).1
    !! Demo.table_path 7 = Some [x01; x02; x03].
Proof. vm_compute. reflexivity. Qed.

(** ** The file table persister *)

Section PersisterProperties.
Context `{!Nbs.Externals} `{!Nbs.Collaborators}.
Implicit Types (w : Nbs.world) (E : Nbs.env) (ftp : Nbs.fsTablePersister).

(** The name of a table never starts with the prefix of the temporary
    files. *)
Hypothesis names_apart :
  ∀ (a : Nbs.addr) (suffix : string),
    Nbs.addr_String a ≠ Nbs.tempTablePrefix +:+ suffix.

Lemma temp_ne_final ftp (a : Nbs.addr) (suffix : string) :
  Nbs.final_path ftp a ≠ Nbs.temp_path ftp suffix.
Proof.
  unfold Nbs.final_path, Nbs.temp_path, Nbs.filepath_Join. intros Heq.
  apply (inj (String.app _)), (inj (String.app "/")) in Heq.
  by apply (names_apart a suffix).
Qed.

Lemma parse_calls_snoc (l : list Nbs.event) (e : Nbs.event) :
  Nbs.parse_calls (l ++ [e])
  = (Nbs.parse_calls l + (if decide (e = Nbs.EvParse) then 1 else 0))%nat.
Proof.
  unfold Nbs.parse_calls. rewrite filter_app, length_app. f_equal.
  rewrite filter_cons, filter_nil. by case_decide.
Qed.

Lemma parse_calls_quiet (l evs : list Nbs.event) :
  Forall (λ e, e ≠ Nbs.EvParse) evs →
  Nbs.parse_calls (l ++ evs) = Nbs.parse_calls l.
Proof.
  intros Hq. unfold Nbs.parse_calls. rewrite filter_app, length_app.
  induction Hq as [|e evs He _ IH]; simpl; [lia|].
  rewrite filter_cons. by case_decide.
Qed.

Ltac io_unfold :=
  unfold Nbs.persistTable, Nbs.persistTable_temp, Nbs.ConjoinAll_temp,
    Nbs.ioutil_TempFile, Nbs.io_Copy, Nbs.file_Write, Nbs.write_file,
    Nbs.copyN_to, Nbs.file_Close, Nbs.lockEntry, Nbs.unlockEntry, Nbs.put,
    Nbs.ShrinkCache, Nbs.os_Rename, Nbs.Open, Nbs.parse_index,
    Nbs.append_file, Nbs.get_fs, Nbs.set_fs, Nbs.emit, Nbs.bind, Nbs.ret,
    Nbs.or_else in *.

Ltac solve_Forall :=
  repeat first [apply Forall_nil_2 | apply Forall_cons_2]; eauto.

Ltac fs_simpl :=
  repeat first
    [ rewrite lookup_insert_eq
    | rewrite lookup_alter_eq
    | rewrite lookup_alter_ne by (done || congruence)
    | rewrite lookup_insert_ne by (done || congruence)
    | rewrite lookup_delete_ne by (done || congruence) ];
  simpl.

(** *** The copy loop *)

Lemma copy_sources_spec (temp : string) (l : list Nbs.sourceWithSize) :
  ∀ w w' (r : option error),
    Nbs.copy_sources temp l w = (w', r) →
    (∀ p : string, p ≠ temp → Nbs.w_fs w' !! p = Nbs.w_fs w !! p) ∧
    (∃ evs, Nbs.w_log w' = Nbs.w_log w ++ evs ∧
            Forall (λ e, e = Nbs.EvReader ∨ ∃ n, e = Nbs.EvCopyN temp n) evs) ∧
    (r = None → ∀ c, Nbs.w_fs w !! temp = Some c →
       Nbs.w_fs w' !! temp = Some (c ++ mjoin (map Nbs.moved l))) ∧
    (∀ s, s ∈ l → 0 ≤ Nbs.dataLen s < 2 ^ 64 →
          Nbs.copied s < Nbs.dataLen s → r ≠ None).
Proof.
  induction l as [|s l IH]; intros w w' r Hrun; simpl in Hrun.
  - io_unfold. simplify_eq. split_and!; try done.
    + exists []. by rewrite app_nil_r.
    + intros _ c Hc. by rewrite app_nil_r.
    + intros s Hs. by apply elem_of_nil in Hs.
  - io_unfold. simpl in Hrun.
    destruct (Nbs.reader (Nbs.source s)) as [rd [err|]] eqn:Hrd.
    { simplify_eq/=. split_and!; try done.
      eexists. split; [done|]. solve_Forall. }
    destruct (Nbs.io_CopyN rd (GoInt.int64 (Nbs.dataLen s)))
      as [bs [err|]] eqn:Hcp.
    { simplify_eq/=. split_and!; try done.
      - intros p Hp. by fs_simpl.
      - eexists. split; [by rewrite <- app_assoc|].
        solve_Forall. }
    simpl in Hrun. case_bool_decide as Hn.
    + apply IH in Hrun as (Hfr & (evs & Hlog & Hevs) & Hok & Hshort).
      simpl in *. split_and!.
      * intros p Hp. rewrite Hfr by done. by fs_simpl.
      * exists (Nbs.EvReader
                  :: Nbs.EvCopyN temp (GoInt.int64 (Nbs.dataLen s)) :: evs).
        split; [by rewrite Hlog, <- !app_assoc|].
        solve_Forall.
      * intros -> c Hc. rewrite (Hok eq_refl (c ++ bs)).
        -- rewrite <- app_assoc. simpl.
           assert (Nbs.moved s = bs) as ->; [|done].
           unfold Nbs.moved. rewrite Hrd. simpl. by rewrite Hcp.
        -- by rewrite lookup_alter_eq, Hc.
      * intros s' Hs' Hrange Hlt.
        apply elem_of_cons in Hs' as [->|Hs']; [|by eapply Hshort].
        unfold Nbs.copied, Nbs.moved in Hlt. rewrite Hrd in Hlt.
        simpl in Hlt. rewrite Hcp in Hlt. simpl in Hlt.
        rewrite uint64_small in Hn by lia. lia.
    + simplify_eq/=. split_and!; try done.
      * intros p Hp. by fs_simpl.
      * eexists. split; [by rewrite <- app_assoc|].
        solve_Forall.
Qed.

(** *** The temporary file *)

Ltac count_parses :=
  rewrite ?parse_calls_snoc; repeat case_decide; simplify_eq; simpl; try lia.

Lemma persistTable_temp_spec ftp E (name : Nbs.addr) (data : list byte)
    w w' (tempName : string) (ferr : option error) :
  Nbs.persistTable_temp ftp E name data w = (w', (tempName, ferr)) →
  (∀ p : string, (∀ suffix, p ≠ Nbs.temp_path ftp suffix) →
     Nbs.w_fs w' !! p = Nbs.w_fs w !! p) ∧
  (ferr = None →
     (∃ suffix, tempName = Nbs.temp_path ftp suffix) ∧
     Nbs.w_fs w' !! tempName = Some data) ∧
  (Nbs.parse_calls (Nbs.w_log w') ≤ Nbs.parse_calls (Nbs.w_log w) + 1)%nat ∧
  (∀ e, (Nbs.parseTableIndex data).2 = Some e →
     ferr ≠ None ∧
     (Nbs.parse_calls (Nbs.w_log w') ≠ Nbs.parse_calls (Nbs.w_log w) →
      tempName = "" ∧ ferr = Some e)).
Proof.
  intros Hrun. io_unfold.
  repeat (case_match; simplify_eq/=); split_and!.
  all: try (intros p Hp; try done;
            by rewrite ?lookup_alter_ne, ?lookup_insert_ne
              by (apply not_eq_sym, Hp)).
  all: try (intros ?; simplify_eq; split; [by eexists|]; fs_simpl;
            by rewrite ?take_0, ?app_nil_l).
  all: try (by count_parses).
  all: try (intros e' He'; simplify_eq/=; split; [done|]; intros Hcalls;
            try done; exfalso; apply Hcalls; by count_parses).
Qed.

Lemma copy_events_quiet (temp : string) (evs : list Nbs.event) :
  Forall (λ e, e = Nbs.EvReader ∨ ∃ n, e = Nbs.EvCopyN temp n) evs →
  Forall (λ e, e ≠ Nbs.EvParse) evs.
Proof. intros Hevs. eapply Forall_impl; [done|]. intros e [->|[n ->]]; done. Qed.

Lemma ConjoinAll_temp_spec ftp E (plan : Nbs.compactionPlan)
    (name : Nbs.addr) w w' (tempName : string) (ferr : option error) :
  Nbs.ConjoinAll_temp ftp E plan name w = (w', (tempName, ferr)) →
  (∀ p : string, (∀ suffix, p ≠ Nbs.temp_path ftp suffix) →
     Nbs.w_fs w' !! p = Nbs.w_fs w !! p) ∧
  (ferr = None →
     (∃ suffix, tempName = Nbs.temp_path ftp suffix) ∧
     Nbs.w_fs w' !! tempName = Some (Nbs.plan_image plan)) ∧
  (Nbs.parse_calls (Nbs.w_log w') ≤ Nbs.parse_calls (Nbs.w_log w) + 1)%nat ∧
  (∀ e, (Nbs.parseTableIndex (Nbs.mergedIndex plan)).2 = Some e →
     ferr ≠ None ∧
     (Nbs.parse_calls (Nbs.w_log w') ≠ Nbs.parse_calls (Nbs.w_log w) →
      tempName = "" ∧ ferr = Some e)) ∧
  (∀ s, s ∈ Nbs.sws plan → 0 ≤ Nbs.dataLen s < 2 ^ 64 →
        Nbs.copied s < Nbs.dataLen s → ferr ≠ None).
Proof.
  intros Hrun. io_unfold.
  destruct (Nbs.e_TempFile E) as [suffix [err|]]; simpl in Hrun.
  { simplify_eq/=. split_and!; try done; [by count_parses|].
    intros e' _. split; [done|]. intros Hc. exfalso. apply Hc.
    by count_parses. }
  destruct (Nbs.w_fs w !! _) eqn:Hfresh; simpl in Hrun.
  { simplify_eq/=. split_and!; try done; [by count_parses|].
    intros e' _. split; [done|]. intros Hc. exfalso. apply Hc.
    by count_parses. }
  destruct (Nbs.copy_sources _ _ _) as [w2 r] eqn:Hloop.
  apply copy_sources_spec in Hloop
    as (Hfr & (evs & Hlog & Hevs) & Hok & Hshort).
  apply copy_events_quiet in Hevs. simpl in *.
  specialize (λ H, Hok H _ (lookup_insert_eq _ _ _)).
  repeat (case_match; simplify_eq/=); split_and!.
  all: try (intros p Hp; try done; fs_simpl;
            rewrite ?lookup_alter_ne by (apply not_eq_sym, Hp);
            rewrite Hfr by apply Hp;
            by rewrite lookup_insert_ne by (apply not_eq_sym, Hp)).
  all: try (intros ?; simplify_eq; split; [by eexists|]; fs_simpl;
            by rewrite Hok).
  all: try (intros e' He'; simplify_eq/=; split; [done|]; intros Hcalls;
            try done; exfalso; apply Hcalls;
            rewrite ?parse_calls_snoc, Hlog, parse_calls_quiet by done;
            by count_parses).
  all: try (rewrite ?parse_calls_snoc, Hlog, parse_calls_quiet by done;
            by count_parses).
  all: try (intros s' Hs' Hrange Hlt; by eauto).
  all: try (intros s' Hs' Hrange Hlt; by destruct (Hshort s' Hs' Hrange Hlt)).
  all: done.
Qed.

(** *** Installing the table *)

Lemma persistTable_spec ftp E (name : Nbs.addr) (data : list byte)
    (count : Z) w w' (res : option Nbs.chunkSource * option error) :
  Nbs.persistTable ftp E name data count w = (w', res) →
  (Nbs.w_fs w' !! Nbs.final_path ftp name = Nbs.w_fs w !! Nbs.final_path ftp name
   ∨ (res = Nbs.e_Open E ∧
      Nbs.w_fs w' !! Nbs.final_path ftp name = Some data)) ∧
  (Nbs.parse_calls (Nbs.w_log w') ≤ Nbs.parse_calls (Nbs.w_log w) + 1)%nat ∧
  (∀ e, count ≠ 0 → (Nbs.parseTableIndex data).2 = Some e →
     res.2 ≠ None ∧
     Nbs.w_fs w' !! Nbs.final_path ftp name
       = Nbs.w_fs w !! Nbs.final_path ftp name ∧
     (Nbs.parse_calls (Nbs.w_log w') ≠ Nbs.parse_calls (Nbs.w_log w) →
      res = (None, Some e))) ∧
  (count ≠ 0 → res.2 = None →
   Nbs.w_fs w' !! Nbs.final_path ftp name = Some data).
Proof.
  intros Hrun. unfold Nbs.persistTable in Hrun.
  destruct (Z.eqb_spec count 0) as [->|Hcount].
  { unfold Nbs.ret in Hrun. simplify_eq.
    split_and!; [by left|lia|done|done]. }
  unfold Nbs.bind at 1 in Hrun.
  destruct (Nbs.persistTable_temp _ _ _ _ _) as [w1 [tempName ferr]] eqn:Htemp.
  apply persistTable_temp_spec in Htemp as (Hfr & Hok & Hcalls & Hparse).
  specialize (Hfr _ (temp_ne_final ftp name)).
  fold (Nbs.final_path ftp name) in Hrun. io_unfold.
  destruct ferr as [e0|].
  { simplify_eq. split_and!; [by left|done| |done].
    intros e _ He. destruct (Hparse e He) as [_ Hreached].
    split_and!; [done..|]. intros Hc. by destruct (Hreached Hc) as [_ ->]. }
  destruct (Hok eq_refl) as [[suffix ->] Hdata].
  assert (∀ e, (Nbs.parseTableIndex data).2 = Some e → False) as Hnofail.
  { intros e He. by destruct (Hparse e He). }
  repeat (case_match; simplify_eq/=); split_and!.
  all: try (by left; simpl).
  all: try (by count_parses).
  all: try (intros ? _ He; by destruct (Hnofail _ He)).
  all: try (intros _ ?; simplify_eq/=; by fs_simpl).
  right. split; [done|]. by fs_simpl.
Qed.

Lemma ConjoinAll_spec ftp E (sources : list Nbs.chunkSource)
    (plan : Nbs.compactionPlan) (perr : option error) w w'
    (res : option Nbs.chunkSource * option error) :
  Nbs.planConjoin sources = (plan, perr) →
  Nbs.ConjoinAll ftp E sources w = (w', res) →
  let final :=
    Nbs.final_path ftp (Nbs.nameFromSuffixes (Nbs.suffixes plan)) in
  (Nbs.w_fs w' !! final = Nbs.w_fs w !! final
   ∨ (res = Nbs.e_Open E ∧
      Nbs.w_fs w' !! final = Some (Nbs.plan_image plan))) ∧
  (Nbs.parse_calls (Nbs.w_log w') ≤ Nbs.parse_calls (Nbs.w_log w) + 1)%nat ∧
  (perr = None → Nbs.chunkCount plan ≠ 0 →
   (∀ e, (Nbs.parseTableIndex (Nbs.mergedIndex plan)).2 = Some e →
      res.2 ≠ None ∧ Nbs.w_fs w' !! final = Nbs.w_fs w !! final ∧
      (Nbs.parse_calls (Nbs.w_log w') ≠ Nbs.parse_calls (Nbs.w_log w) →
       res = (None, Some e))) ∧
   (∀ s, s ∈ Nbs.sws plan → 0 ≤ Nbs.dataLen s < 2 ^ 64 →
         Nbs.copied s < Nbs.dataLen s →
         res.1 = None ∧ res.2 ≠ None ∧
         Nbs.w_fs w' !! final = Nbs.w_fs w !! final) ∧
   (res.2 = None → Nbs.w_fs w' !! final = Some (Nbs.plan_image plan))).
Proof.
  intros Hplan Hrun final. unfold Nbs.ConjoinAll in Hrun.
  rewrite Hplan in Hrun.
  destruct perr as [e0|].
  { unfold Nbs.ret in Hrun. simplify_eq. split_and!; [by left|lia|done]. }
  destruct (Z.eqb_spec (Nbs.chunkCount plan) 0) as [Hzero|Hcount].
  { unfold Nbs.ret in Hrun. simplify_eq. split_and!; [by left|lia|done]. }
  unfold Nbs.bind at 1 in Hrun.
  destruct (Nbs.ConjoinAll_temp _ _ _ _ _) as [w1 [tempName ferr]] eqn:Htemp.
  apply ConjoinAll_temp_spec in Htemp
    as (Hfr & Hok & Hcalls & Hparse & Hshort).
  specialize (Hfr _ (temp_ne_final ftp
                       (Nbs.nameFromSuffixes (Nbs.suffixes plan)))).
  fold (Nbs.final_path ftp (Nbs.nameFromSuffixes (Nbs.suffixes plan))) in Hrun.
  fold final in Hrun, Hfr. io_unfold.
  destruct ferr as [e0|].
  { simplify_eq. split_and!; [by left|done|]. intros _ _. split_and!.
    - intros e He. destruct (Hparse e He) as [_ Hreached].
      split_and!; [done..|]. intros Hc. by destruct (Hreached Hc) as [_ ->].
    - done.
    - done. }
  destruct (Hok eq_refl) as [[suffix ->] Hdata].
  assert (∀ e, (Nbs.parseTableIndex (Nbs.mergedIndex plan)).2 = Some e
               → False) as Hnofail.
  { intros e He. by destruct (Hparse e He). }
  assert (∀ s, s ∈ Nbs.sws plan → 0 ≤ Nbs.dataLen s < 2 ^ 64 →
               Nbs.copied s < Nbs.dataLen s → False) as Hnoshort.
  { intros s Hs Hr Hlt. by destruct (Hshort s Hs Hr Hlt). }
  repeat (case_match; simplify_eq/=); split_and!.
  all: try (by left; simpl).
  all: try (by count_parses).
  all: try (intros _ _; split_and!;
            [ intros ? He; by destruct (Hnofail _ He)
            | intros ? Hs Hr Hlt; by destruct (Hnoshort _ Hs Hr Hlt)
            | intros ?; simplify_eq/=; by fs_simpl ]).
  right. split; [done|]. by fs_simpl.
Qed.

(** *** The claims about [Persist] and [ConjoinAll] *)


(** C2.  A memory table that serialises to no chunk makes [Persist] return
    the empty chunk source and leave the world as it is: no file is
    touched and no call is logged.  [ConjoinAll] does the same when the plan
    covers no chunk. *)
Theorem empty_table_touches_nothing ftp E (mt : Nbs.memTable)
    (haver : Nbs.chunkReader) (sources : list Nbs.chunkSource) w
    (name : Nbs.addr) (data : list byte) (plan : Nbs.compactionPlan) :
  (Nbs.mt_write mt haver = (name, data, 0, None) →
   Nbs.Persist ftp E mt haver w = (w, (Some Nbs.emptyChunkSource, None)))
  ∧ (Nbs.planConjoin sources = (plan, None) → Nbs.chunkCount plan = 0 →
     Nbs.ConjoinAll ftp E sources w
       = (w, (Some Nbs.emptyChunkSource, None))).
Proof.
  split.
  - intros Hwrite. unfold Nbs.Persist. by rewrite Hwrite.
  - intros Hplan Hzero. unfold Nbs.ConjoinAll. by rewrite Hplan, Hzero.
Qed.

(** C5.  If some source of the plan gives up fewer bytes than the plan
    declares for it, [ConjoinAll] returns [nil] and an error, and the file
    under the name of the new table is what it was before the call. *)
Theorem short_copy_aborts_conjoin ftp E (sources : list Nbs.chunkSource) w
    (plan : Nbs.compactionPlan) (s : Nbs.sourceWithSize) :
  Nbs.planConjoin sources = (plan, None) →
  Nbs.chunkCount plan ≠ 0 →
  s ∈ Nbs.sws plan →
  0 ≤ Nbs.dataLen s < 2 ^ 64 →
  Nbs.copied s < Nbs.dataLen s →
  (∃ err : error, (Nbs.ConjoinAll ftp E sources w).2 = (None, Some err)) ∧
  Nbs.w_fs (Nbs.ConjoinAll ftp E sources w).1
    !! Nbs.final_path ftp (Nbs.nameFromSuffixes (Nbs.suffixes plan))
  = Nbs.w_fs w
      !! Nbs.final_path ftp (Nbs.nameFromSuffixes (Nbs.suffixes plan)).
Proof.
  intros Hplan Hcount Hs Hrange Hshort.
  destruct (Nbs.ConjoinAll _ _ _ _) as [w' [cs err]] eqn:Hrun.
  destruct (ConjoinAll_spec _ _ _ _ _ _ _ _ Hplan Hrun) as (_ & _ & Hfail).
  destruct (Hfail eq_refl Hcount) as (_ & Hcopy & _).
  destruct (Hcopy s Hs Hrange Hshort) as (Hcs & Herr & Hfinal).
  simpl in *. subst cs. destruct err as [e|]; [|done]. eauto.
Qed.

(** C6.  If the index parser rejects the bytes of the table, [Persist] and
    [ConjoinAll] return an error and leave the file under the final name
    as it was.  The parser is called at most once, and once it has been
    called the error returned is its own. *)
Theorem corrupt_index_is_surfaced ftp E (mt : Nbs.memTable)
    (haver : Nbs.chunkReader) (sources : list Nbs.chunkSource) w
    (name : Nbs.addr) (data : list byte) (count : Z)
    (plan : Nbs.compactionPlan) (e : error) :
  (Nbs.mt_write mt haver = (name, data, count, None) → count ≠ 0 →
   (Nbs.parseTableIndex data).2 = Some e →
   (Nbs.Persist ftp E mt haver w).2.2 ≠ None ∧
   Nbs.w_fs (Nbs.Persist ftp E mt haver w).1 !! Nbs.final_path ftp name
     = Nbs.w_fs w !! Nbs.final_path ftp name ∧
   (Nbs.parse_calls (Nbs.w_log (Nbs.Persist ftp E mt haver w).1)
      ≤ Nbs.parse_calls (Nbs.w_log w) + 1)%nat ∧
   (Nbs.parse_calls (Nbs.w_log (Nbs.Persist ftp E mt haver w).1)
      ≠ Nbs.parse_calls (Nbs.w_log w) →
    (Nbs.Persist ftp E mt haver w).2 = (None, Some e)))
  ∧ (Nbs.planConjoin sources = (plan, None) → Nbs.chunkCount plan ≠ 0 →
     (Nbs.parseTableIndex (Nbs.mergedIndex plan)).2 = Some e →
     (Nbs.ConjoinAll ftp E sources w).2.2 ≠ None ∧
     Nbs.w_fs (Nbs.ConjoinAll ftp E sources w).1
       !! Nbs.final_path ftp (Nbs.nameFromSuffixes (Nbs.suffixes plan))
       = Nbs.w_fs w
           !! Nbs.final_path ftp (Nbs.nameFromSuffixes (Nbs.suffixes plan)) ∧
     (Nbs.parse_calls (Nbs.w_log (Nbs.ConjoinAll ftp E sources w).1)
        ≤ Nbs.parse_calls (Nbs.w_log w) + 1)%nat ∧
     (Nbs.parse_calls (Nbs.w_log (Nbs.ConjoinAll ftp E sources w).1)
        ≠ Nbs.parse_calls (Nbs.w_log w) →
      (Nbs.ConjoinAll ftp E sources w).2 = (None, Some e))).
Proof.
  split.
  - intros Hwrite Hcount Hparse. unfold Nbs.Persist. rewrite Hwrite.
    destruct (Nbs.persistTable _ _ _ _ _ _) as [w' res] eqn:Hrun.
    apply persistTable_spec in Hrun as (_ & Hcalls & Hfail & _).
    destruct (Hfail e Hcount Hparse) as (? & ? & ?). by split_and!.
  - intros Hplan Hcount Hparse.
    destruct (Nbs.ConjoinAll _ _ _ _) as [w' res] eqn:Hrun.
    destruct (ConjoinAll_spec _ _ _ _ _ _ _ _ Hplan Hrun)
      as (_ & Hcalls & Hfail).
    destruct (Hfail eq_refl Hcount) as (Hcorrupt & _ & _).
    destruct (Hcorrupt e Hparse) as (? & ? & ?). by split_and!.
Qed.

(** X11.  A call that succeeds has installed the whole table: the file
    under the final name holds every byte of the image. *)
Lemma successful_call_installs_whole_table ftp E (mt : Nbs.memTable)
    (haver : Nbs.chunkReader) (sources : list Nbs.chunkSource) w
    (name : Nbs.addr) (data : list byte) (count : Z)
    (plan : Nbs.compactionPlan) :
  (Nbs.mt_write mt haver = (name, data, count, None) → count ≠ 0 →
   (Nbs.Persist ftp E mt haver w).2.2 = None →
   Nbs.w_fs (Nbs.Persist ftp E mt haver w).1 !! Nbs.final_path ftp name
     = Some data)
  ∧ (Nbs.planConjoin sources = (plan, None) → Nbs.chunkCount plan ≠ 0 →
     (Nbs.ConjoinAll ftp E sources w).2.2 = None →
     Nbs.w_fs (Nbs.ConjoinAll ftp E sources w).1
       !! Nbs.final_path ftp (Nbs.nameFromSuffixes (Nbs.suffixes plan))
       = Some (Nbs.plan_image plan)).
Proof.
  split.
  - intros Hwrite Hcount. unfold Nbs.Persist. rewrite Hwrite.
    destruct (Nbs.persistTable _ _ _ _ _ _) as [w' res] eqn:Hrun.
    apply persistTable_spec in Hrun as (_ & _ & _ & Hdone). by apply Hdone.
  - intros Hplan Hcount.
    destruct (Nbs.ConjoinAll _ _ _ _) as [w' res] eqn:Hrun.
    destruct (ConjoinAll_spec _ _ _ _ _ _ _ _ Hplan Hrun) as (_ & _ & Hrest).
    destruct (Hrest eq_refl Hcount) as (_ & _ & Hdone). by apply Hdone.
Qed.

(** [Persist] reads the memory table through [write] alone. *)
Lemma Persist_reads_write_only ftp E (mt1 mt2 : Nbs.memTable)
    (haver : Nbs.chunkReader) w :
  Nbs.mt_write mt1 haver = Nbs.mt_write mt2 haver →
  Nbs.Persist ftp E mt1 haver w = Nbs.Persist ftp E mt2 haver w.
Proof. intros Heq. unfold Nbs.Persist. by rewrite Heq. Qed.

(** *** What [Persist] does and [ConjoinAll] does not *)

(** X12.  [Persist] puts the index into the cache under the lock of the
    table's name: in the log of the call every [put] comes after the
    [lockEntry] of that name and before its [unlockEntry]. *)
Lemma Persist_puts_locked ftp E (mt : Nbs.memTable)
    (haver : Nbs.chunkReader) w :
  Nbs.w_log w = [] →
  Nbs.puts_locked [] (Nbs.w_log (Nbs.Persist ftp E mt haver w).1) = true.
Proof.
  intros Hlog. unfold Nbs.Persist. io_unfold.
  repeat (case_match; simplify_eq/=); rewrite ?Hlog; simpl; try done.
  all: rewrite !bool_decide_eq_true_2 by set_solver; done.
Qed.

(** X13.  [Persist] shrinks the file-handle cache before it installs and
    opens the table: in the log of the call every rename and every [Open]
    comes after a [ShrinkCache]. *)
Lemma Persist_shrinks_before_install ftp E (mt : Nbs.memTable)
    (haver : Nbs.chunkReader) w :
  Nbs.w_log w = [] →
  Nbs.shrinks_before_install false
    (Nbs.w_log (Nbs.Persist ftp E mt haver w).1) = true.
Proof.
  intros Hlog. unfold Nbs.Persist. io_unfold.
  repeat (case_match; simplify_eq/=); rewrite ?Hlog; simpl; done.
Qed.

End PersisterProperties.

(** *** The persister at work in a small directory *)

Lemma demo_names_apart (a : N) (suffix : string) :
  @Nbs.addr_String Demo.externals a ≠ Nbs.tempTablePrefix +:+ suffix.
Proof. simpl. discriminate. Qed.



(** An instance of C2: a memory table without chunks, and no source to
    conjoin. *)
Lemma empty_table_touches_nothing_witness :
  (@Nbs.mt_write _ Demo.collaborators Demo.mt_none tt = (0%N, [], 0, None) →
   Demo.Persist Demo.ftp Demo.all_ok Demo.mt_none tt Demo.empty_dir
     = (Demo.empty_dir, (Some (@Nbs.emptyChunkSource Demo.externals), None)))
  ∧ (@Nbs.planConjoin _ Demo.collaborators []
       = (@Nbs.mkPlan Demo.externals [] [] 0 [], None) →
     @Nbs.chunkCount Demo.externals (Nbs.mkPlan [] [] 0 []) = 0 →
     Demo.ConjoinAll Demo.ftp Demo.all_ok [] Demo.empty_dir
       = (Demo.empty_dir,
          (Some (@Nbs.emptyChunkSource Demo.externals), None))).
Proof.
  exact (@empty_table_touches_nothing Demo.externals Demo.collaborators
           Demo.ftp Demo.all_ok Demo.mt_none tt [] Demo.empty_dir
           0%N [] (Nbs.mkPlan [] [] 0 [])).
Defined.

Example Persist_empty_runs :
  Demo.Persist Demo.ftp Demo.all_ok Demo.mt_none tt Demo.empty_dir
  = (Demo.empty_dir, (Some (@Nbs.emptyChunkSource Demo.externals), None)).
Proof. reflexivity. Qed.

(** An instance of C5: the second source holds one byte where the plan
    declares three. *)
Lemma short_copy_aborts_conjoin_witness :
  (∃ err : error,
     (Demo.ConjoinAll Demo.ftp Demo.all_ok [Demo.src_a; Demo.src_short]
        Demo.empty_dir).2 = (None, Some err)) ∧
  Nbs.w_fs
    (Demo.ConjoinAll Demo.ftp Demo.all_ok [Demo.src_a; Demo.src_short]
       Demo.empty_dir).1 !! Demo.table_path 2
  = Nbs.w_fs Demo.empty_dir !! Demo.table_path 2.
Proof.
  apply (@short_copy_aborts_conjoin
           Demo.externals Demo.collaborators demo_names_apart
           Demo.ftp Demo.all_ok [Demo.src_a; Demo.src_short] Demo.empty_dir
           (Nbs.mkPlan
              [Nbs.mkSourceWithSize Demo.src_a 2;
               Nbs.mkSourceWithSize Demo.src_short 3]
              [x01; x03] 2 [x01; x03])
           (Nbs.mkSourceWithSize Demo.src_short 3)).
  - reflexivity.
  - simpl. lia.
  - simpl. apply list_elem_of_further, list_elem_of_here.
  - simpl. lia.
  - vm_compute. reflexivity.
Defined.

Example short_copy_runs :
  (Demo.ConjoinAll Demo.ftp Demo.all_ok [Demo.src_a; Demo.src_short]
     Demo.empty_dir).2 = (None, Some "EOF").
Proof. vm_compute. reflexivity. Qed.

(** An instance of C6: a memory table and a source whose index blocks hold
    the byte that the parser rejects. *)
Lemma corrupt_index_is_surfaced_witness :
  ((Demo.Persist Demo.ftp Demo.all_ok Demo.mt_corrupt tt
      Demo.empty_dir).2.2 ≠ None ∧
   Nbs.w_fs
     (Demo.Persist Demo.ftp Demo.all_ok Demo.mt_corrupt tt Demo.empty_dir).1
     !! Demo.table_path 9 = Nbs.w_fs Demo.empty_dir !! Demo.table_path 9 ∧
   (Nbs.parse_calls
      (Nbs.w_log
         (Demo.Persist Demo.ftp Demo.all_ok Demo.mt_corrupt tt
            Demo.empty_dir).1)
      ≤ Nbs.parse_calls (Nbs.w_log Demo.empty_dir) + 1)%nat ∧
   (Nbs.parse_calls
      (Nbs.w_log
         (Demo.Persist Demo.ftp Demo.all_ok Demo.mt_corrupt tt
            Demo.empty_dir).1)
      ≠ Nbs.parse_calls (Nbs.w_log Demo.empty_dir) →
    (Demo.Persist Demo.ftp Demo.all_ok Demo.mt_corrupt tt Demo.empty_dir).2
      = (None, Some "corrupt index")))
  ∧ ((Demo.ConjoinAll Demo.ftp Demo.all_ok [Demo.src_corrupt]
        Demo.empty_dir).2.2 ≠ None ∧
     Nbs.w_fs
       (Demo.ConjoinAll Demo.ftp Demo.all_ok [Demo.src_corrupt]
          Demo.empty_dir).1
       !! Demo.table_path 1 = Nbs.w_fs Demo.empty_dir !! Demo.table_path 1 ∧
     (Nbs.parse_calls
        (Nbs.w_log
           (Demo.ConjoinAll Demo.ftp Demo.all_ok [Demo.src_corrupt]
              Demo.empty_dir).1)
        ≤ Nbs.parse_calls (Nbs.w_log Demo.empty_dir) + 1)%nat ∧
     (Nbs.parse_calls
        (Nbs.w_log
           (Demo.ConjoinAll Demo.ftp Demo.all_ok [Demo.src_corrupt]
              Demo.empty_dir).1)
        ≠ Nbs.parse_calls (Nbs.w_log Demo.empty_dir) →
      (Demo.ConjoinAll Demo.ftp Demo.all_ok [Demo.src_corrupt]
         Demo.empty_dir).2 = (None, Some "corrupt index"))).
Proof.
  pose proof (@corrupt_index_is_surfaced
                Demo.externals Demo.collaborators demo_names_apart
                Demo.ftp Demo.all_ok Demo.mt_corrupt tt [Demo.src_corrupt]
                Demo.empty_dir 9%N [x01; xff] 1
                (Nbs.mkPlan [Nbs.mkSourceWithSize Demo.src_corrupt 1]
                            [xff] 1 [xff])
                "corrupt index") as [Hpersist Hconjoin].
  split.
  - apply Hpersist; [reflexivity|lia|reflexivity].
  - apply Hconjoin; [reflexivity|simpl; lia|reflexivity].
Defined.

Example corrupt_index_runs :
  (Demo.Persist Demo.ftp Demo.all_ok Demo.mt_corrupt tt Demo.empty_dir).2
    = (None, Some "corrupt index") ∧
  (Demo.ConjoinAll Demo.ftp Demo.all_ok [Demo.src_corrupt] Demo.empty_dir).2
    = (None, Some "corrupt index").
Proof. vm_compute. done. Qed.

(** C3.  A [ConjoinAll] of two tables in which every call succeeds: the
    merged index is put into the cache, and the log shows no lock of its
    name before the [put] and no unlock after it. *)
Theorem ConjoinAll_puts_unlocked :
  (Demo.ConjoinAll Demo.ftp Demo.all_ok [Demo.src_a; Demo.src_b]
     Demo.empty_dir).2 = (Some Demo.opened, None) ∧
  Nbs.EvPut 2%N
    ∈ Nbs.w_log
        (Demo.ConjoinAll Demo.ftp Demo.all_ok [Demo.src_a; Demo.src_b]
           Demo.empty_dir).1 ∧
  Nbs.puts_locked []
    (Nbs.w_log
       (Demo.ConjoinAll Demo.ftp Demo.all_ok [Demo.src_a; Demo.src_b]
          Demo.empty_dir).1) = false.
Proof. vm_compute. split_and!; [done| |done]. set_solver. Qed.

(** C4.  The same [ConjoinAll] installs and opens the new table, and the
    log shows no [ShrinkCache] before the rename. *)
Theorem ConjoinAll_installs_unshrunk :
  Nbs.w_fs
    (Demo.ConjoinAll Demo.ftp Demo.all_ok [Demo.src_a; Demo.src_b]
       Demo.empty_dir).1 !! Demo.table_path 2
    = Some [x0a; x0b; x0c; x01; x02] ∧
  Nbs.w_log
    (Demo.ConjoinAll Demo.ftp Demo.all_ok [Demo.src_a; Demo.src_b]
       Demo.empty_dir).1
    = [Nbs.EvTempFile "db" "nbs_table_"; Nbs.EvReader;
       Nbs.EvCopyN "db/nbs_table_001" 2; Nbs.EvReader;
       Nbs.EvCopyN "db/nbs_table_001" 1; Nbs.EvWrite "db/nbs_table_001";
       Nbs.EvParse; Nbs.EvPut 2%N; Nbs.EvClose "db/nbs_table_001";
       Nbs.EvRename "db/nbs_table_001" "db/t2"; Nbs.EvOpen 2%N 2] ∧
  Nbs.shrinks_before_install false
    (Nbs.w_log
       (Demo.ConjoinAll Demo.ftp Demo.all_ok [Demo.src_a; Demo.src_b]
          Demo.empty_dir).1) = false.
Proof. vm_compute. done. Qed.

Example Persist_log :
  Nbs.w_log
    (Demo.Persist Demo.ftp Demo.all_ok Demo.mt_two tt Demo.empty_dir).1
  = [Nbs.EvTempFile "db" "nbs_table_"; Nbs.EvCopy "db/nbs_table_001";
     Nbs.EvParse; Nbs.EvLockEntry 7%N; Nbs.EvPut 7%N;
     Nbs.EvUnlockEntry 7%N;
     Nbs.EvClose "db/nbs_table_001"; Nbs.EvShrinkCache;
     Nbs.EvRename "db/nbs_table_001" "db/t7"; Nbs.EvOpen 7%N 2].
Proof. vm_compute. reflexivity. Qed.

(** ** The in-memory table *)

Lemma to_N_inj (b1 b2 : byte) : Byte.to_N b1 = Byte.to_N b2 → b1 = b2.
Proof.
  intros Heq. apply (inj Some). by rewrite <- !Byte.of_to_N, Heq.
Qed.

Lemma bytes_leb_antisym (d1 d2 : list byte) :
  MemTable.bytes_leb d1 d2 = true → MemTable.bytes_leb d2 d1 = true →
  d1 = d2.
Proof.
  revert d2. induction d1 as [|b1 d1 IH]; intros [|b2 d2]; simpl; try done.
  intros H1 H2.
  apply orb_true_iff in H1 as [H1|H1], H2 as [H2|H2];
    rewrite ?andb_true_iff, ?N.ltb_lt, ?N.eqb_eq in *; try lia.
  destruct H1 as [Hb H1], H2 as [_ H2].
  f_equal; [by apply to_N_inj|by apply IH].
Qed.

Lemma bytes_leb_trans (d1 d2 d3 : list byte) :
  MemTable.bytes_leb d1 d2 = true → MemTable.bytes_leb d2 d3 = true →
  MemTable.bytes_leb d1 d3 = true.
Proof.
  revert d2 d3.
  induction d1 as [|b1 d1 IH]; intros [|b2 d2] [|b3 d3]; simpl; try done.
  rewrite !orb_true_iff, !andb_true_iff, !N.ltb_lt, !N.eqb_eq.
  intros [H1|[H1 H1']] [H2|[H2 H2']]; try (left; lia).
  right. split; [lia|by eapply IH].
Qed.

Lemma bytes_leb_total (d1 d2 : list byte) :
  MemTable.bytes_leb d1 d2 = true ∨ MemTable.bytes_leb d2 d1 = true.
Proof.
  revert d2. induction d1 as [|b1 d1 IH]; intros [|b2 d2]; simpl; auto.
  rewrite !orb_true_iff, !andb_true_iff, !N.ltb_lt, !N.eqb_eq.
  destruct (N.lt_trichotomy (Byte.to_N b1) (Byte.to_N b2)) as [?|[?|?]];
    [auto| |auto].
  destruct (IH d2); [left|right]; right; split; done || lia.
Qed.

(** The canonical order is a total order on chunks. *)
#[local] Instance chunk_le_antisym : AntiSymm (=) MemTable.chunk_le.
Proof.
  intros [a1 d1] [a2 d2]. unfold MemTable.chunk_le, MemTable.chunk_leb.
  simpl. rewrite !orb_true_iff, !andb_true_iff, !N.ltb_lt, !N.eqb_eq.
  intros [?|[? H1]] [?|[? H2]]; try lia.
  f_equal; [done|by apply bytes_leb_antisym].
Qed.

#[local] Instance chunk_le_transitive : Transitive MemTable.chunk_le.
Proof.
  intros [a1 d1] [a2 d2] [a3 d3].
  unfold MemTable.chunk_le, MemTable.chunk_leb. simpl.
  rewrite !orb_true_iff, !andb_true_iff, !N.ltb_lt, !N.eqb_eq.
  intros [?|[? H1]] [?|[? H2]]; try (left; lia).
  right. split; [lia|by eapply bytes_leb_trans].
Qed.

#[local] Instance chunk_le_total : Total MemTable.chunk_le.
Proof.
  intros [a1 d1] [a2 d2]. unfold MemTable.chunk_le, MemTable.chunk_leb.
  simpl. rewrite !orb_true_iff, !andb_true_iff, !N.ltb_lt, !N.eqb_eq.
  destruct (N.lt_trichotomy a1 a2) as [?|[?|?]]; [auto| |auto].
  destruct (bytes_leb_total d1 d2); [left|right]; right; split; done || lia.
Qed.

(** Sorting a set of chunks forgets how often and in which order they
    were added. *)
Lemma sort_chunks_unique (l1 l2 : list MemTable.chunk) :
  (∀ c, c ∈ l1 ↔ c ∈ l2) →
  merge_sort MemTable.chunk_le (remove_dups l1)
  = merge_sort MemTable.chunk_le (remove_dups l2).
Proof.
  intros Hset.
  apply (StronglySorted_unique MemTable.chunk_le).
  - apply StronglySorted_merge_sort; apply _.
  - apply StronglySorted_merge_sort; apply _.
  - rewrite !merge_sort_Permutation.
    apply NoDup_Permutation; [apply NoDup_remove_dups..|].
    intros c. by rewrite !elem_of_remove_dups.
Qed.

Lemma written_of_set (mt1 mt2 : MemTable.memTable) (haver : N → bool) :
  (∀ c, c ∈ MemTable.chunks mt1 ↔ c ∈ MemTable.chunks mt2) →
  MemTable.written mt1 haver = MemTable.written mt2 haver.
Proof.
  intros Hset. unfold MemTable.written. apply sort_chunks_unique.
  intros c. by rewrite !list_elem_of_filter, Hset.
Qed.

(** The chunks written are those of the table that [haver] does not
    report, each once and in the order of their addresses. *)
Lemma written_spec (mt : MemTable.memTable) (haver : N → bool) :
  (∀ c, c ∈ MemTable.written mt haver
        ↔ c ∈ MemTable.chunks mt ∧ haver c.1 = false) ∧
  NoDup (MemTable.written mt haver) ∧
  Sorted N.le (MemTable.written mt haver).*1.
Proof.
  unfold MemTable.written. split_and!.
  - intros c. rewrite merge_sort_Permutation, elem_of_remove_dups,
      list_elem_of_filter. tauto.
  - rewrite merge_sort_Permutation. apply NoDup_remove_dups.
  - apply (Sorted_fmap fst MemTable.chunk_le N.le);
      [|apply Sorted_merge_sort; apply _].
    intros [a1 d1] [a2 d2]. unfold MemTable.chunk_le, MemTable.chunk_leb.
    simpl. rewrite orb_true_iff, andb_true_iff, N.ltb_lt, N.eqb_eq. lia.
Qed.

Section WriteProperties.
Context `{!Nbs.Externals}.
Variable name_of : list N → N.
Variable checksum : list byte → Z.
Variable encode_index : list (N * Z * Z * Z) → list byte.
Variable planConjoin :
  list Nbs.chunkSource → Nbs.compactionPlan * option error.

(** C8.  Two memory tables that hold the same set of chunks, in whatever
    order and however often the chunks were added, serialise to the same
    name, the same bytes and the same chunk count; and [Persist], which
    reads the table through [write] alone, does the same to the directory
    and returns the same for both. *)
Theorem write_deterministic (mt1 mt2 : MemTable.memTable)
    (haver : N → bool) (ftp : Nbs.fsTablePersister) (E : Nbs.env)
    (w : Nbs.world) :
  (∀ c, c ∈ MemTable.chunks mt1 ↔ c ∈ MemTable.chunks mt2) →
  MemTable.write name_of checksum encode_index mt1 haver
  = MemTable.write name_of checksum encode_index mt2 haver ∧
  @Nbs.Persist _
    (MemTable.collaborators name_of checksum encode_index planConjoin)
    ftp E mt1 haver w
  = @Nbs.Persist _
      (MemTable.collaborators name_of checksum encode_index planConjoin)
      ftp E mt2 haver w.
Proof.
  intros Hset.
  assert (MemTable.write name_of checksum encode_index mt1 haver
          = MemTable.write name_of checksum encode_index mt2 haver) as Heq.
  { unfold MemTable.write. by rewrite (written_of_set mt1 mt2 haver Hset). }
  split; [done|]. by apply Persist_reads_write_only.
Qed.

End WriteProperties.

(** An instance of C8: the chunks 1 and 2, added in one order, and added
    in the other order with chunk 1 added twice. *)
Lemma write_deterministic_witness :
  MemTable.write Demo.name_of Demo.checksum Demo.encode_index
    Demo.mt_ab (λ _, false)
  = MemTable.write Demo.name_of Demo.checksum Demo.encode_index
      Demo.mt_aba (λ _, false) ∧
  @Nbs.Persist Demo.externals Demo.mem_collaborators
    Demo.ftp Demo.all_ok Demo.mt_ab (λ _, false) Demo.empty_dir
  = @Nbs.Persist Demo.externals Demo.mem_collaborators
      Demo.ftp Demo.all_ok Demo.mt_aba (λ _, false) Demo.empty_dir.
Proof.
  apply (@write_deterministic Demo.externals Demo.name_of Demo.checksum
           Demo.encode_index (@Nbs.planConjoin _ Demo.collaborators)
           Demo.mt_ab Demo.mt_aba (λ _, false) Demo.ftp Demo.all_ok
           Demo.empty_dir).
  intros c. simpl. rewrite !elem_of_cons, !elem_of_nil. tauto.
Defined.

Example write_sorts_by_address :
  MemTable.write Demo.name_of Demo.checksum Demo.encode_index
    Demo.mt_ab (λ _, false)
  = (6760%N, [x0a; x0a; x0b; x01; x00; x02; x02; x02; x02; x01; x01; x02],
     2, None).
Proof. vm_compute. reflexivity. Qed.

Example write_once_per_chunk :
  MemTable.write Demo.name_of Demo.checksum Demo.encode_index
    Demo.mt_aba (λ _, false)
  = (6760%N, [x0a; x0a; x0b; x01; x00; x02; x02; x02; x02; x01; x01; x02],
     2, None).
Proof. vm_compute. reflexivity. Qed.

Example write_skips_what_haver_has :
  MemTable.write Demo.name_of Demo.checksum Demo.encode_index
    Demo.mt_aba (λ a, bool_decide (a = 1%N))
  = (219%N, [x0b; x02; x00; x01; x01; x01], 1, None).
Proof. vm_compute. reflexivity. Qed.

Example persist_of_memTable_installs :
  Nbs.w_fs
    (@Nbs.Persist Demo.externals Demo.mem_collaborators
       Demo.ftp Demo.all_ok Demo.mt_aba (λ _, false) Demo.empty_dir).1
    !! "db/t6760"
  = Some [x0a; x0a; x0b; x01; x00; x02; x02; x02; x02; x01; x01; x02].
Proof. vm_compute. reflexivity. Qed.

(** * Further properties *)

(** ** [IsInOrder] and sorted keys *)

Section IsInOrderSorted.
Context {K V I : Type} `{!Kvp.LesserValuable K} `{!Kvp.KVPIterator K V I}.
Implicit Types (l : list (Kvp.KVP K V)) (p c : Kvp.KVP K V) (itr : I).

(** The flag of [IsInOrder] tells whether the pairs are in order. *)
Lemma IsInOrder_flag itr l (fuel : nat) :
  Kvp.yields itr l → Z.of_nat (length l) < 2 ^ 63 → (length l ≤ fuel)%nat →
  Kvp.IsInOrder fuel itr = Some (true, Z.of_nat (length l)) ↔ Kvp.in_order l.
Proof.
  intros Hy Hlen Hfuel. unfold Kvp.IsInOrder.
  inversion Hy as [? ? Hnext|? itr' p l' Hnext Hrest]; subst; rewrite Hnext.
  - split; [intros _; apply in_order_nil|done].
  - destruct (IsInOrder_loop_spec l' itr' p 1 fuel Hrest) as
      [[Hord Hres]|(k & q & r & Hq & Hr & Hqr & Hord & Hres)];
      try (simpl in *; lia).
    + rewrite Hres. split; [done|]. intros _. do 2 f_equal. simpl length. lia.
    + rewrite Hres. split; [done|]. intros Hall.
      specialize (Hall k q r Hq Hr). congruence.
Qed.

(** When "not less" is transitive, neighbours in order put every pair of
    positions in order. *)
Lemma in_order_all_pairs l :
  (∀ a b c : K, Kvp.Less b a = false → Kvp.Less c b = false →
                Kvp.Less c a = false) →
  Kvp.in_order l →
  ∀ (i j : nat) p c, (i < j)%nat → l !! i = Some p → l !! j = Some c →
                     Kvp.Less (Kvp.Key c) (Kvp.Key p) = false.
Proof.
  intros Htrans Hord i j. revert i.
  induction j as [|j IH]; intros i p c Hij Hp Hc; [lia|].
  destruct (decide (i = j)) as [->|Hne]; [by eapply Hord|].
  destruct (lookup_lt_is_Some_2 l j) as [q Hq].
  { apply lookup_lt_Some in Hc. lia. }
  eapply Htrans; [eapply (IH i p q); [lia|done..]|by eapply Hord].
Qed.

(** X1.  Let "not less" be transitive on the keys.  For an iterator that
    yields the pairs [l] and then [nil], [IsInOrder] returns [true] with
    the number of pairs exactly when no pair of [l] has a key strictly less
    than the key of a pair yielded before it, however far apart the two
    are. *)
Theorem IsInOrder_iff_sorted itr l (fuel : nat) :
  (∀ a b c : K, Kvp.Less b a = false → Kvp.Less c b = false →
                Kvp.Less c a = false) →
  Kvp.yields itr l → Z.of_nat (length l) < 2 ^ 63 → (length l ≤ fuel)%nat →
  Kvp.IsInOrder fuel itr = Some (true, Z.of_nat (length l))
  ↔ (∀ (i j : nat) p c, (i < j)%nat → l !! i = Some p → l !! j = Some c →
                        Kvp.Less (Kvp.Key c) (Kvp.Key p) = false).
Proof.
  intros Htrans Hy Hlen Hfuel. rewrite (IsInOrder_flag itr l fuel) by done.
  split; [by apply in_order_all_pairs|].
  intros Hall i p c Hp Hc. apply (Hall i (S i)); [lia|done..].
Qed.

End IsInOrderSorted.

Lemma Z_not_less_transitive (a b c : Z) :
  Kvp.Less b a = false → Kvp.Less c b = false → Kvp.Less c a = false.
Proof.
  unfold Kvp.Less, Kvp.Z_lesser. rewrite !Z.ltb_ge. lia.
Qed.

(** An instance of X1: the keys 1, 2, 2, 5. *)
Lemma IsInOrder_iff_sorted_witness :
  Kvp.IsInOrder 4
    [Kvp.mkKVP 1 "a"; Kvp.mkKVP 2 "b"; Kvp.mkKVP 2 "c"; Kvp.mkKVP 5 "d"]
    = Some (true, 4)
  ↔ (∀ (i j : nat) p c, (i < j)%nat →
       [Kvp.mkKVP 1 "a"; Kvp.mkKVP 2 "b"; Kvp.mkKVP 2 "c"; Kvp.mkKVP 5 "d"]
         !! i = Some p →
       [Kvp.mkKVP 1 "a"; Kvp.mkKVP 2 "b"; Kvp.mkKVP 2 "c"; Kvp.mkKVP 5 "d"]
         !! j = Some c →
       Kvp.Less (Kvp.Key c) (Kvp.Key p) = false).
Proof.
  apply (IsInOrder_iff_sorted
           [Kvp.mkKVP 1 "a"; Kvp.mkKVP 2 "b"; Kvp.mkKVP 2 "c";
            Kvp.mkKVP 5 "d"]
           [Kvp.mkKVP 1 "a"; Kvp.mkKVP 2 "b"; Kvp.mkKVP 2 "c";
            Kvp.mkKVP 5 "d"] 4).
  - apply Z_not_less_transitive.
  - repeat (eapply Kvp.yields_cons; [reflexivity|]).
    eapply Kvp.yields_nil. reflexivity.
  - simpl. lia.
  - simpl. lia.
Defined.

(** ** [KVPSlice] *)

Section KVPSliceProperties.
Context {K V : Type} `{!Kvp.LesserValuable K}.
Implicit Types (kvps : list (Kvp.KVP K V)) (a b : Kvp.KVP K V).

Lemma at_index_Returns kvps (i : Z) a :
  KVPSlice.at_index kvps i = Returns a
  ↔ 0 ≤ i ∧ kvps !! Z.to_nat i = Some a.
Proof.
  unfold KVPSlice.at_index.
  destruct (Z.leb_spec 0 i), (Z.ltb_spec i (Z.of_nat (length kvps))); simpl.
  - destruct (kvps !! Z.to_nat i) eqn:Hi.
    + split; [intros [= ->]; done|intros [_ [= ->]]; done].
    + split; [done|intros [_ [=]]].
  - split; [done|]. intros [_ Hi%lookup_lt_Some]. lia.
  - split; [done|]. lia.
  - split; [done|]. lia.
Qed.

Lemma at_index_Panics kvps (i : Z) :
  KVPSlice.at_index kvps i = Panics ↔ ¬ (0 ≤ i < KVPSlice.Len kvps).
Proof.
  unfold KVPSlice.at_index, KVPSlice.Len.
  destruct (Z.leb_spec 0 i), (Z.ltb_spec i (Z.of_nat (length kvps))); simpl;
    try (split; [lia|done]).
  destruct (lookup_lt_is_Some_2 kvps (Z.to_nat i)) as [a ->]; [lia|].
  split; [done|lia].
Qed.

Lemma insert_head_perm kvps (j : nat) a b :
  kvps !! j = Some b → b :: <[j := a]> kvps ≡ₚ a :: kvps.
Proof.
  revert j. induction kvps as [|c kvps IH]; intros [|j] Hj; simplify_eq/=.
  - apply Permutation_swap.
  - rewrite (Permutation_swap c b), (IH j Hj). apply Permutation_swap.
Qed.

Lemma swap_perm kvps (i j : nat) a b :
  kvps !! i = Some a → kvps !! j = Some b →
  <[j := a]> (<[i := b]> kvps) ≡ₚ kvps.
Proof.
  revert i j. induction kvps as [|c kvps IH]; intros [|i] [|j] Hi Hj;
    simplify_eq/=; try done.
  - by apply insert_head_perm.
  - by apply insert_head_perm.
  - f_equiv. by apply IH.
Qed.

Lemma swap_back kvps (i j : nat) a b :
  kvps !! i = Some a → kvps !! j = Some b →
  <[j := b]> (<[i := a]> (<[j := a]> (<[i := b]> kvps))) = kvps.
Proof.
  intros Hi Hj. apply list_eq. intros k.
  pose proof (lookup_lt_Some _ _ _ Hi). pose proof (lookup_lt_Some _ _ _ Hj).
  rewrite !list_lookup_insert, !length_insert.
  repeat case_decide; destruct_and?; subst; try congruence; tauto.
Qed.

(** X2.  A [Swap] that returns has permuted the slice: the length and the
    pairs are the same, [Less] of the two positions now answers what it
    answered for them in the other order, and a second [Swap] of the same
    positions restores the slice. *)
Theorem Swap_permutes kvps (i j : Z) kvps' :
  KVPSlice.Swap kvps i j = Returns kvps' →
  kvps' ≡ₚ kvps ∧ KVPSlice.Len kvps' = KVPSlice.Len kvps ∧
  KVPSlice.Less kvps' i j = KVPSlice.Less kvps j i ∧
  KVPSlice.Swap kvps' i j = Returns kvps.
Proof.
  unfold KVPSlice.Swap. intros Hswap.
  destruct (KVPSlice.at_index kvps i) as [a|] eqn:Hi; [|done].
  destruct (KVPSlice.at_index kvps j) as [b|] eqn:Hj; [|done].
  simplify_eq.
  assert (KVPSlice.at_index
            (<[Z.to_nat j := a]> (<[Z.to_nat i := b]> kvps)) j = Returns a)
    as Hj'.
  { apply at_index_Returns in Hj as [? Hj]. apply at_index_Returns.
    split; [done|]. apply list_lookup_insert_eq. rewrite length_insert.
    by eapply lookup_lt_Some. }
  assert (KVPSlice.at_index
            (<[Z.to_nat j := a]> (<[Z.to_nat i := b]> kvps)) i = Returns b)
    as Hi'.
  { apply at_index_Returns in Hi as [? Hi], Hj as [? Hj].
    apply at_index_Returns. split; [done|].
    pose proof (lookup_lt_Some _ _ _ Hi). pose proof (lookup_lt_Some _ _ _ Hj).
    rewrite !list_lookup_insert, !length_insert.
    repeat case_decide; destruct_and?; try congruence; tauto. }
  apply at_index_Returns in Hi as Hi2, Hj as Hj2.
  destruct Hi2 as [? Hi2], Hj2 as [? Hj2]. split_and!.
  - by apply swap_perm.
  - unfold KVPSlice.Len. by rewrite !length_insert.
  - unfold KVPSlice.Less. by rewrite Hi', Hj', Hi, Hj.
  - rewrite Hi', Hj'. f_equal. by apply swap_back.
Qed.

(** [Less] and [Swap] panic exactly when one of the two positions is
    outside the slice. *)
Theorem Less_Swap_panic_iff_out_of_range kvps (i j : Z) :
  (KVPSlice.Less kvps i j = Panics
   ↔ ¬ (0 ≤ i < KVPSlice.Len kvps ∧ 0 ≤ j < KVPSlice.Len kvps))
  ∧ (KVPSlice.Swap kvps i j = Panics
     ↔ ¬ (0 ≤ i < KVPSlice.Len kvps ∧ 0 ≤ j < KVPSlice.Len kvps)).
Proof.
  pose proof (at_index_Panics kvps i) as Hi.
  pose proof (at_index_Panics kvps j) as Hj.
  unfold KVPSlice.Less, KVPSlice.Swap.
  destruct (KVPSlice.at_index kvps i), (KVPSlice.at_index kvps j);
    split; split; try done; try tauto; intros Hno; exfalso.
  all: apply Hno; split; [by apply dec_stable; intros ?%Hi|
                          by apply dec_stable; intros ?%Hj].
Qed.

End KVPSliceProperties.

(** An instance of X2: the first and the last of three pairs. *)
Lemma Swap_permutes_witness :
  [Kvp.mkKVP 3 "c"; Kvp.mkKVP 2 "b"; Kvp.mkKVP 1 "a"]
    ≡ₚ [Kvp.mkKVP 1 "a"; Kvp.mkKVP 2 "b"; Kvp.mkKVP 3 "c"] ∧
  KVPSlice.Len [Kvp.mkKVP 3 "c"; Kvp.mkKVP 2 "b"; Kvp.mkKVP 1 "a"]
    = KVPSlice.Len [Kvp.mkKVP 1 "a"; Kvp.mkKVP 2 "b"; Kvp.mkKVP 3 "c"] ∧
  KVPSlice.Less [Kvp.mkKVP 3 "c"; Kvp.mkKVP 2 "b"; Kvp.mkKVP 1 "a"] 0 2
    = KVPSlice.Less [Kvp.mkKVP 1 "a"; Kvp.mkKVP 2 "b"; Kvp.mkKVP 3 "c"] 2 0 ∧
  KVPSlice.Swap [Kvp.mkKVP 3 "c"; Kvp.mkKVP 2 "b"; Kvp.mkKVP 1 "a"] 0 2
    = Returns [Kvp.mkKVP 1 "a"; Kvp.mkKVP 2 "b"; Kvp.mkKVP 3 "c"].
Proof.
  apply (Swap_permutes
           [Kvp.mkKVP 1 "a"; Kvp.mkKVP 2 "b"; Kvp.mkKVP 3 "c"] 0 2).
  reflexivity.
Defined.

(** ** [convertDiff], all of its branches *)

Section ConvertDiffBranches.
Context {Tuple : Type}.
Variable Tuple_Get : Tuple → Z → option (RowDiff.Value Tuple) * option error.
Variable idx : Z.
Variable describe : RowDiff.Value Tuple → string.

#[local] Abbreviation cardinality' :=
  (RowDiff.cardinality Tuple Tuple_Get idx).
#[local] Abbreviation convertDiff' :=
  (RowDiff.convertDiff Tuple Tuple_Get idx describe).

(** An added difference comes back as it is with the cardinality of
    its new row, and a removed difference with the cardinality of its old
    row. *)
Theorem convertDiff_added_removed_pass (df : RowDiff.Difference Tuple)
    (oldCard newCard : Z) :
  cardinality' (RowDiff.OldValue df) = Returns (oldCard, None) →
  cardinality' (RowDiff.NewValue df) = Returns (newCard, None) →
  (RowDiff.ChangeType df = RowDiff.DiffChangeAdded →
   convertDiff' df = Returns (df, newCard, None))
  ∧ (RowDiff.ChangeType df = RowDiff.DiffChangeRemoved →
     convertDiff' df = Returns (df, oldCard, None)).
Proof.
  intros Hold Hnew. unfold RowDiff.convertDiff. rewrite Hold, Hnew.
  split; intros ->; done.
Qed.

(** X3.  Whenever [convertDiff] returns without an error, the difference
    it returns is an added or a removed change, never a modified one; it
    has the key of the input, the new value of the input when added and
    the old value when removed, and the count is a [uint64]. *)
Theorem convertDiff_success_shape (df df' : RowDiff.Difference Tuple)
    (count : Z) :
  convertDiff' df = Returns (df', count, None) →
  RowDiff.KeyValue df' = RowDiff.KeyValue df ∧
  0 ≤ count < 2 ^ 64 ∧
  ((RowDiff.ChangeType df' = RowDiff.DiffChangeAdded ∧
    RowDiff.NewValue df' = RowDiff.NewValue df)
   ∨ (RowDiff.ChangeType df' = RowDiff.DiffChangeRemoved ∧
      RowDiff.OldValue df' = RowDiff.OldValue df)).
Proof.
  unfold RowDiff.convertDiff. intros Hrun.
  destruct (cardinality' (RowDiff.OldValue df)) as [[oc [e|]]|] eqn:Hold;
    [done| |done].
  destruct (cardinality' (RowDiff.NewValue df)) as [[nc [e|]]|] eqn:Hnew;
    [done| |done].
  pose proof (cardinality_uint64 _ _ _ _ _ Hold).
  pose proof (cardinality_uint64 _ _ _ _ _ Hnew).
  destruct (RowDiff.ChangeType df) eqn:Hty; simplify_eq/=.
  - split_and!; try done; try lia. by left.
  - split_and!; try done; try lia. by right.
  - pose proof (uint64_range
                  (GoInt.int64 (GoInt.int64 nc - GoInt.int64 oc))).
    repeat case_match; simplify_eq/=; split_and!; try done; try lia;
      [by left|by right].
Qed.

(** X5.  Whenever [convertDiff] returns an error, it returns the
    difference it was given and the count 0.  An error in reading the
    cardinality of the old row is returned whatever the change is, and
    before the new row is looked at. *)
Theorem convertDiff_error_shape (df df' : RowDiff.Difference Tuple)
    (count : Z) (err : error) :
  (convertDiff' df = Returns (df', count, Some err) → df' = df ∧ count = 0)
  ∧ (∀ c, cardinality' (RowDiff.OldValue df) = Returns (c, Some err) →
          convertDiff' df = Returns (df, 0, Some err)).
Proof.
  unfold RowDiff.convertDiff. split.
  - intros Hrun. repeat case_match; by simplify_eq.
  - intros c ->. done.
Qed.

End ConvertDiffBranches.

(** An example: a row added in four copies, a row removed in
    three. *)
Lemma convertDiff_added_removed_pass_witness :
  (RowDiff.ChangeType
     (RowDiff.mkDifference RowDiff.DiffChangeAdded None
        (RowDiff.keyless_row 4) (RowDiff.UintVal 7))
     = RowDiff.DiffChangeAdded →
   RowDiff.convert_keyless
     (RowDiff.mkDifference RowDiff.DiffChangeAdded None
        (RowDiff.keyless_row 4) (RowDiff.UintVal 7))
   = Returns
       (RowDiff.mkDifference RowDiff.DiffChangeAdded None
          (RowDiff.keyless_row 4) (RowDiff.UintVal 7), 4, None))
  ∧ (RowDiff.ChangeType
       (RowDiff.mkDifference RowDiff.DiffChangeAdded None
          (RowDiff.keyless_row 4) (RowDiff.UintVal 7))
       = RowDiff.DiffChangeRemoved →
     RowDiff.convert_keyless
       (RowDiff.mkDifference RowDiff.DiffChangeAdded None
          (RowDiff.keyless_row 4) (RowDiff.UintVal 7))
     = Returns
         (RowDiff.mkDifference RowDiff.DiffChangeAdded None
            (RowDiff.keyless_row 4) (RowDiff.UintVal 7), 0, None)).
Proof.
  apply (convertDiff_added_removed_pass RowDiff.uint_tuple_get 1 (λ _, "k")
           (RowDiff.mkDifference RowDiff.DiffChangeAdded None
              (RowDiff.keyless_row 4) (RowDiff.UintVal 7)) 0 4);
    reflexivity.
Defined.

(** An instance of X3: a row that goes from one copy to three. *)
Lemma convertDiff_success_shape_witness :
  RowDiff.KeyValue
    (RowDiff.mkDifference RowDiff.DiffChangeAdded None
       (RowDiff.keyless_row 3) (RowDiff.UintVal 7))
    = RowDiff.KeyValue
        (RowDiff.mkDifference RowDiff.DiffChangeModified
           (RowDiff.keyless_row 1) (RowDiff.keyless_row 3)
           (RowDiff.UintVal 7)) ∧
  0 ≤ 2 < 2 ^ 64 ∧
  ((RowDiff.ChangeType
      (RowDiff.mkDifference RowDiff.DiffChangeAdded None
         (RowDiff.keyless_row 3) (RowDiff.UintVal 7))
      = RowDiff.DiffChangeAdded ∧
    RowDiff.NewValue
      (RowDiff.mkDifference RowDiff.DiffChangeAdded None
         (RowDiff.keyless_row 3) (RowDiff.UintVal 7))
      = RowDiff.NewValue
          (RowDiff.mkDifference RowDiff.DiffChangeModified
             (RowDiff.keyless_row 1) (RowDiff.keyless_row 3)
             (RowDiff.UintVal 7)))
   ∨ (RowDiff.ChangeType
        (RowDiff.mkDifference RowDiff.DiffChangeAdded None
           (RowDiff.keyless_row 3) (RowDiff.UintVal 7))
        = RowDiff.DiffChangeRemoved ∧
      RowDiff.OldValue
        (RowDiff.mkDifference RowDiff.DiffChangeAdded None
           (RowDiff.keyless_row 3) (RowDiff.UintVal 7))
        = RowDiff.OldValue
            (RowDiff.mkDifference RowDiff.DiffChangeModified
               (RowDiff.keyless_row 1) (RowDiff.keyless_row 3)
               (RowDiff.UintVal 7)))).
Proof.
  apply (convertDiff_success_shape RowDiff.uint_tuple_get 1 (λ _, "k")
           (RowDiff.mkDifference RowDiff.DiffChangeModified
              (RowDiff.keyless_row 1) (RowDiff.keyless_row 3)
              (RowDiff.UintVal 7))).
  vm_compute. reflexivity.
Defined.

(** ** [GetDiffs] *)

Lemma insert_filled_slice (k m : nat) :
  <[k := Some RowDiff.AddrOfDf]> (RowDiff.filled_slice k (S m))
  = RowDiff.filled_slice (S k) m.
Proof.
  unfold RowDiff.filled_slice. change (replicate (S m) None)
    with ((None : option RowDiff.diff_ptr) :: replicate m None).
  induction k as [|k IH]; [done|].
  cbn [replicate app]. change (<[S k := ?x]> (?y :: ?l)) with (y :: <[k := x]> l).
  f_equal. exact IH.
Qed.

Lemma length_filled_slice (k m : nat) :
  length (RowDiff.filled_slice k m) = (k + m)%nat.
Proof. unfold RowDiff.filled_slice. by rewrite length_app, !length_replicate. Qed.

Lemma pointers_filled_slice (k m : nat) :
  RowDiff.pointers (RowDiff.filled_slice k m) = Z.of_nat k.
Proof.
  unfold RowDiff.pointers, RowDiff.filled_slice. f_equal.
  rewrite filter_app, length_app.
  assert (filter is_Some (replicate m (None : option RowDiff.diff_ptr)) = [])
    as ->.
  { induction m as [|m IH]; simpl; [done|].
    rewrite filter_cons_False; [done|]. by intros [? ?]. }
  assert (filter is_Some (replicate k (Some RowDiff.AddrOfDf))
          = replicate k (Some RowDiff.AddrOfDf)) as ->.
  { induction k as [|k IH]; simpl; [done|].
    rewrite filter_cons_True by eauto. by rewrite IH. }
  rewrite length_replicate. simpl. lia.
Qed.

(** The inner loop hands out as many copies as are left and fit. *)
Lemma fill_copies_spec (fuel : nat) : ∀ (k m : nat) (copies : Z),
  Z.of_nat (k + m) < 2 ^ 63 → 0 ≤ copies < 2 ^ 64 → (m ≤ fuel)%nat →
  RowDiff.fill_copies fuel (Z.of_nat (k + m)) (RowDiff.filled_slice k m)
    (Z.of_nat k) copies
  = Finished
      (RowDiff.filled_slice (k + Nat.min m (Z.to_nat copies))
                            (m - Nat.min m (Z.to_nat copies)),
       Z.of_nat (k + Nat.min m (Z.to_nat copies)),
       copies - Z.of_nat (Nat.min m (Z.to_nat copies))).
Proof.
  induction fuel as [|fuel IH]; intros k m copies Hn Hc Hfuel.
  - assert (m = 0%nat) as -> by lia. simpl.
    destruct (Z.ltb_spec (Z.of_nat k) (Z.of_nat (k + 0))); [lia|]. simpl.
    rewrite Nat.add_0_r, Z.sub_0_r. done.
  - cbn [RowDiff.fill_copies].
    destruct (Z.ltb_spec (Z.of_nat k) (Z.of_nat (k + m))) as [Hlt|Hge];
      cbn [andb].
    2:{ assert (m = 0%nat) as -> by lia. simpl.
        by rewrite Nat.add_0_r, Z.sub_0_r. }
    destruct (Z.ltb_spec 0 copies) as [Hpos|Hzero].
    2:{ assert (copies = 0) as -> by lia. simpl.
        by rewrite Nat.min_0_r, Nat.add_0_r, Nat.sub_0_r. }
    destruct m as [|m]; [lia|].
    rewrite length_filled_slice.
    destruct (Z.leb_spec 0 (Z.of_nat k)); [|lia].
    destruct (Z.ltb_spec (Z.of_nat k) (Z.of_nat (k + S m))); [|lia].
    cbn [andb]. rewrite Nat2Z.id, insert_filled_slice.
    unfold GoInt.int. rewrite int64_small, uint64_small by lia.
    replace (Z.of_nat k + 1) with (Z.of_nat (S k)) by lia.
    replace (Z.of_nat (k + S m)) with (Z.of_nat (S k + m)) by lia.
    rewrite IH by lia.
    replace (Z.to_nat copies) with (S (Z.to_nat (copies - 1))) by lia.
    cbn [Nat.min Nat.sub]. rewrite <- Nat.add_succ_comm, Nat2Z.inj_succ.
    do 2 f_equal. lia.
Qed.

Section GetDiffsProperties.
Context {Tuple : Type}.
Variable Tuple_Get : Tuple → Z → option (RowDiff.Value Tuple) * option error.
Variable idx : Z.
Variable describe : RowDiff.Value Tuple → string.

#[local] Abbreviation convert :=
  (RowDiff.convertDiff Tuple Tuple_Get idx describe).
#[local] Abbreviation keyless_loop :=
  (RowDiff.keylessDiffer_loop Tuple Tuple_Get idx describe).
#[local] Abbreviation keyless_GetDiffs :=
  (RowDiff.keylessDiffer_GetDiffs Tuple Tuple_Get idx describe).
#[local] Abbreviation copies_of :=
  (RowDiff.received_copies Tuple Tuple_Get idx describe).

Lemma convertDiff_count_range (d d' : RowDiff.Difference Tuple) (count : Z)
    (err : option error) :
  convert d = Returns (d', count, err) → 0 ≤ count < 2 ^ 64.
Proof.
  unfold RowDiff.convertDiff. intros Hrun.
  destruct (RowDiff.cardinality _ _ _ (RowDiff.OldValue d))
    as [[oc [e|]]|] eqn:Hold; simplify_eq; [lia|].
  destruct (RowDiff.cardinality _ _ _ (RowDiff.NewValue d))
    as [[nc [e|]]|] eqn:Hnew; simplify_eq; [lia|].
  pose proof (cardinality_uint64 _ _ _ _ _ Hold).
  pose proof (cardinality_uint64 _ _ _ _ _ Hnew).
  pose proof (uint64_range (GoInt.int64 (GoInt.int64 nc - GoInt.int64 oc))).
  repeat case_match; simplify_eq; lia.
Qed.

(** What the outer loop has done when it returns, started with [k] entries
    filled and [m] still [nil]. *)
Lemma keylessDiffer_loop_spec (events : list (RowDiff.select_event Tuple)) :
  ∀ (k m : nat) (kd : RowDiff.keylessDiffer Tuple),
    Z.of_nat (k + m) < 2 ^ 63 → 0 ≤ RowDiff.copiesLeft kd < 2 ^ 64 →
    match keyless_loop events (Z.of_nat (k + m)) (RowDiff.filled_slice k m)
                       (Z.of_nat k) kd with
    | Finished (Some ds, more, err, kd', rest) =>
        ∃ consumed (k' : nat),
          events = consumed ++ rest ∧ (k ≤ k' ≤ k + m)%nat ∧ err = None ∧
          Z.of_nat k' + RowDiff.copiesLeft kd'
            = Z.of_nat k + RowDiff.copiesLeft kd + copies_of consumed ∧
          ds = RowDiff.filled_slice k' (if more then k + m - k' else 0)
    | Finished (None, more, err, kd', rest) =>
        more = false ∧ ∃ consumed, events = consumed ++ rest
    | Panicked => ∃ d, RowDiff.SelRecv d ∈ events ∧ convert d = Panics
    | Blocked => True
    | Starved => False
    end.
Proof.
  induction events as [|ev events IH]; intros k m kd Hn Hc;
    cbn [RowDiff.keylessDiffer_loop];
    rewrite Z2Nat.inj_sub, !Nat2Z.id, Nat.add_sub' by lia;
    rewrite fill_copies_spec by (done || lia);
    set (j := Nat.min m (Z.to_nat (RowDiff.copiesLeft kd)));
    (destruct (Z.eqb_spec (Z.of_nat (k + j)) (Z.of_nat (k + m)))
       as [Hfull|Hmore];
     [ exists [], (k + j)%nat; simpl;
       replace (m - j)%nat with 0%nat by lia;
       replace (k + m - (k + j))%nat with 0%nat by lia;
       split_and!; try done; lia |]).
  - done.
  - assert (Z.of_nat j = RowDiff.copiesLeft kd) as Hj by lia.
    destruct ev as [|waitErr|d|waitErr].
    + exists [RowDiff.SelTimeout], (k + j)%nat. simpl.
      replace (k + m - (k + j))%nat with (m - j)%nat by lia.
      split_and!; try done; lia.
    + split; [done|]. by exists [RowDiff.SelDone waitErr].
    + destruct (convert d) as [[[d' count] [e|]]|] eqn:Hconv.
      * split; [done|]. by exists [RowDiff.SelRecv d].
      * pose proof (convertDiff_count_range _ _ _ _ Hconv) as Hcount.
        replace (Z.of_nat (k + j)) with (Z.of_nat (k + j))%Z by done.
        replace (Z.of_nat (k + m)) with (Z.of_nat ((k + j) + (m - j))) by lia.
        specialize (IH (k + j)%nat (m - j)%nat
                       (RowDiff.mkKeylessDiffer d' count)
                       ltac:(lia) ltac:(simpl; lia)).
        destruct (keyless_loop events _ _ _ _)
          as [[[[[[ds|] more] err] kd'] rest]| | |]; try done.
        -- destruct IH as (consumed & k' & -> & Hk & -> & Hsum & ->).
           exists (RowDiff.SelRecv d :: consumed), k'. simpl in *.
           rewrite Hconv.
           replace (k + j + (m - j) - k')%nat with (k + m - k')%nat by lia.
           split_and!; try done; lia.
        -- destruct IH as (-> & consumed & ->).
           split; [done|]. by exists (RowDiff.SelRecv d :: consumed).
        -- destruct IH as (d0 & Hd0 & Hp).
           exists d0. split; [by apply list_elem_of_further|done].
      * exists d. split; [apply list_elem_of_here|done].
    + exists [RowDiff.SelClosed waitErr], (k + j)%nat. simpl.
      rewrite Nat2Z.id. unfold RowDiff.filled_slice at 1.
      rewrite take_app_length' by (by rewrite length_replicate).
      split_and!; try done; try lia.
      unfold RowDiff.filled_slice. by rewrite app_nil_r.
Qed.

(** The whole call, read off the loop. *)
Lemma keyless_GetDiffs_spec (numDiffs : Z)
    (events rest : list (RowDiff.select_event Tuple))
    (kd kd' : RowDiff.keylessDiffer Tuple)
    (ds : list (option RowDiff.diff_ptr)) (more : bool)
    (err : option error) :
  numDiffs < 2 ^ 63 → 0 ≤ RowDiff.copiesLeft kd < 2 ^ 64 →
  keyless_GetDiffs numDiffs events kd
    = Finished (Some ds, more, err, kd', rest) →
  ∃ consumed (k' : nat),
    events = consumed ++ rest ∧ Z.of_nat k' ≤ numDiffs ∧ err = None ∧
    Z.of_nat k' + RowDiff.copiesLeft kd'
      = RowDiff.copiesLeft kd + copies_of consumed ∧
    ds = RowDiff.filled_slice k'
           (if more then Z.to_nat numDiffs - k' else 0).
Proof.
  intros Hn Hc. unfold RowDiff.keylessDiffer_GetDiffs.
  destruct (Z.ltb_spec numDiffs 0); [done|].
  pose proof (keylessDiffer_loop_spec events 0 (Z.to_nat numDiffs) kd) as Hs.
  simpl in Hs. rewrite Z2Nat.id in Hs by lia.
  unfold RowDiff.filled_slice at 1 in Hs. simpl in Hs.
  change (Z.of_nat 0) with 0 in Hs.
  intros Hrun. rewrite Hrun in Hs.
  destruct (Hs Hn Hc) as (consumed & k' & -> & Hk & -> & Hsum & ->).
  exists consumed, k'. split_and!; try done; lia.
Qed.

(** X7.  [keylessDiffer.GetDiffs] neither loses nor invents a copy: when
    it returns a slice, the entries it filled and the copies it leaves in
    the differ add up to the copies that were left before the call and the
    copies of the differences it took from the channel. *)
Theorem keyless_GetDiffs_conserves_copies (numDiffs : Z)
    (events rest : list (RowDiff.select_event Tuple))
    (kd kd' : RowDiff.keylessDiffer Tuple)
    (ds : list (option RowDiff.diff_ptr)) (more : bool)
    (err : option error) :
  numDiffs < 2 ^ 63 → 0 ≤ RowDiff.copiesLeft kd < 2 ^ 64 →
  keyless_GetDiffs numDiffs events kd
    = Finished (Some ds, more, err, kd', rest) →
  ∃ consumed,
    events = consumed ++ rest ∧
    RowDiff.pointers ds + RowDiff.copiesLeft kd'
      = RowDiff.copiesLeft kd + copies_of consumed.
Proof.
  intros Hn Hc Hrun.
  destruct (keyless_GetDiffs_spec _ _ _ _ _ _ _ _ Hn Hc Hrun)
    as (consumed & k' & -> & Hk & -> & Hsum & ->).
  exists consumed. split; [done|]. rewrite pointers_filled_slice. lia.
Qed.

(** X9.  A slice returned by [keylessDiffer.GetDiffs] has its pointers
    first.  Returned with [more = true] it has [numDiffs] entries, and the
    ones not filled before the timeout are [nil]; returned with
    [more = false], after the channel was closed, it is cut to the entries
    filled.  The error is [nil] in both cases. *)
Theorem keyless_GetDiffs_slice_shape (numDiffs : Z)
    (events rest : list (RowDiff.select_event Tuple))
    (kd kd' : RowDiff.keylessDiffer Tuple)
    (ds : list (option RowDiff.diff_ptr)) (more : bool)
    (err : option error) :
  numDiffs < 2 ^ 63 → 0 ≤ RowDiff.copiesLeft kd < 2 ^ 64 →
  keyless_GetDiffs numDiffs events kd
    = Finished (Some ds, more, err, kd', rest) →
  err = None ∧
  ∃ filled : nat,
    Z.of_nat filled ≤ numDiffs ∧
    ds = RowDiff.filled_slice filled
           (if more then Z.to_nat numDiffs - filled else 0).
Proof.
  intros Hn Hc Hrun.
  destruct (keyless_GetDiffs_spec _ _ _ _ _ _ _ _ Hn Hc Hrun)
    as (consumed & k' & -> & Hk & -> & Hsum & ->).
  split; [done|]. by exists k'.
Qed.

(** X8.  Copies left over from an earlier call are handed out first: when
    at least [numDiffs] of them are left, [GetDiffs] fills the slice,
    returns with [more = true] and takes nothing from the channel. *)
Theorem keyless_GetDiffs_serves_pending_first (numDiffs : Z)
    (events : list (RowDiff.select_event Tuple))
    (kd : RowDiff.keylessDiffer Tuple) :
  0 ≤ numDiffs < 2 ^ 63 → numDiffs ≤ RowDiff.copiesLeft kd < 2 ^ 64 →
  keyless_GetDiffs numDiffs events kd
  = Finished
      (Some (replicate (Z.to_nat numDiffs) (Some RowDiff.AddrOfDf)), true,
       None,
       RowDiff.mkKeylessDiffer (RowDiff.df kd)
                               (RowDiff.copiesLeft kd - numDiffs),
       events).
Proof.
  intros Hn Hc. unfold RowDiff.keylessDiffer_GetDiffs.
  destruct (Z.ltb_spec numDiffs 0); [lia|].
  pose proof (fill_copies_spec (Z.to_nat numDiffs) 0 (Z.to_nat numDiffs)
                (RowDiff.copiesLeft kd)) as Hfill.
  simpl in Hfill. rewrite Z2Nat.id in Hfill by lia.
  unfold RowDiff.filled_slice at 1 in Hfill. simpl in Hfill.
  change (Z.of_nat 0) with 0 in Hfill.
  rewrite Nat.min_l in Hfill by lia.
  destruct events as [|ev events]; cbn [RowDiff.keylessDiffer_loop];
    rewrite Z.sub_0_r, Hfill by (done || lia);
    rewrite Z2Nat.id, Z.eqb_refl, Nat.sub_diag by lia;
    unfold RowDiff.filled_slice; by rewrite app_nil_r.
Qed.

(** *** [AsyncDiffer.GetDiffs] *)

Lemma received_app (evs1 evs2 : list (RowDiff.select_event Tuple)) :
  RowDiff.received (evs1 ++ evs2)
  = RowDiff.received evs1 ++ RowDiff.received evs2.
Proof.
  induction evs1 as [|[| | |] evs1 IH]; simpl; by rewrite ?IH.
Qed.



End GetDiffsProperties.

(** An instance of X7: a row in two copies arrives, then the timeout; the
    slice of three has two pointers and a [nil]. *)
Lemma keyless_GetDiffs_conserves_copies_witness :
  ∃ consumed,
    [RowDiff.SelRecv (RowDiff.added_row 7 2); RowDiff.SelTimeout]
      = consumed ++ [] ∧
    RowDiff.pointers [Some RowDiff.AddrOfDf; Some RowDiff.AddrOfDf; None]
      + RowDiff.copiesLeft (RowDiff.mkKeylessDiffer (RowDiff.added_row 7 2) 0)
    = RowDiff.copiesLeft (RowDiff.mkKeylessDiffer (RowDiff.added_row 1 0) 0)
      + RowDiff.received_copies (list Z) RowDiff.uint_tuple_get 1 (λ _, "k")
          consumed.
Proof.
  apply (keyless_GetDiffs_conserves_copies RowDiff.uint_tuple_get 1
           (λ _, "k") 3
           [RowDiff.SelRecv (RowDiff.added_row 7 2); RowDiff.SelTimeout] []
           (RowDiff.mkKeylessDiffer (RowDiff.added_row 1 0) 0)
           (RowDiff.mkKeylessDiffer (RowDiff.added_row 7 2) 0)
           [Some RowDiff.AddrOfDf; Some RowDiff.AddrOfDf; None] true None).
  - lia.
  - simpl. lia.
  - vm_compute. reflexivity.
Defined.

(** An instance of X9: the same run. *)
Lemma keyless_GetDiffs_slice_shape_witness :
  (None : option error) = None ∧
  ∃ filled : nat,
    Z.of_nat filled ≤ 3 ∧
    [Some RowDiff.AddrOfDf; Some RowDiff.AddrOfDf; None]
    = RowDiff.filled_slice filled
        (if true then Z.to_nat 3 - filled else 0).
Proof.
  apply (keyless_GetDiffs_slice_shape RowDiff.uint_tuple_get 1
           (λ _, "k") 3
           [RowDiff.SelRecv (RowDiff.added_row 7 2); RowDiff.SelTimeout] []
           (RowDiff.mkKeylessDiffer (RowDiff.added_row 1 0) 0)
           (RowDiff.mkKeylessDiffer (RowDiff.added_row 7 2) 0)
           [Some RowDiff.AddrOfDf; Some RowDiff.AddrOfDf; None] true None).
  - lia.
  - simpl. lia.
  - vm_compute. reflexivity.
Defined.

(** An instance of X8: five copies are left and two are asked for. *)
Lemma keyless_GetDiffs_serves_pending_first_witness :
  RowDiff.keyless_GetDiffs 2 [RowDiff.SelClosed None]
    (RowDiff.mkKeylessDiffer (RowDiff.added_row 7 5) 5)
  = Finished
      (Some (replicate (Z.to_nat 2) (Some RowDiff.AddrOfDf)), true, None,
       RowDiff.mkKeylessDiffer
         (RowDiff.df (RowDiff.mkKeylessDiffer (RowDiff.added_row 7 5) 5))
         (RowDiff.copiesLeft
            (RowDiff.mkKeylessDiffer (RowDiff.added_row 7 5) 5) - 2),
       [RowDiff.SelClosed None]).
Proof.
  apply (keyless_GetDiffs_serves_pending_first RowDiff.uint_tuple_get 1
           (λ _, "k") 2 [RowDiff.SelClosed None]
           (RowDiff.mkKeylessDiffer (RowDiff.added_row 7 5) 5)).
  - lia.
  - simpl. lia.
Defined.


(** The same two differences, then the closing of the channel with an
    error of the producer, and then the timeout. *)
Example AsyncDiffer_GetDiffs_closed :
  RowDiff.AsyncDiffer_GetDiffs (list Z) 8 5
    [RowDiff.SelRecv (RowDiff.added_row 1 1);
     RowDiff.SelRecv (RowDiff.added_row 2 1);
     RowDiff.SelClosed (Some "panic in diff.Diff")]
  = Finished
      (Some [RowDiff.added_row 1 1; RowDiff.added_row 2 1], false,
       Some "panic in diff.Diff", []).
Proof. reflexivity. Qed.

Example AsyncDiffer_GetDiffs_timeout :
  RowDiff.AsyncDiffer_GetDiffs (list Z) 8 5
    [RowDiff.SelRecv (RowDiff.added_row 1 1);
     RowDiff.SelRecv (RowDiff.added_row 2 1); RowDiff.SelTimeout]
  = Finished
      (Some [RowDiff.added_row 1 1; RowDiff.added_row 2 1], true, None, []).
Proof. reflexivity. Qed.

Example keyless_GetDiffs_timeout_leaves_nil :
  RowDiff.keyless_GetDiffs 3
    [RowDiff.SelRecv (RowDiff.added_row 7 2); RowDiff.SelTimeout]
    (RowDiff.mkKeylessDiffer (RowDiff.added_row 1 0) 0)
  = Finished
      (Some [Some RowDiff.AddrOfDf; Some RowDiff.AddrOfDf; None], true, None,
       RowDiff.mkKeylessDiffer (RowDiff.added_row 7 2) 0, []).
Proof. vm_compute. reflexivity. Qed.

(** ** [tableDontDescendLists] *)

Section DontDescendProperties.
Context {Val NomsKind : Type} `{!EqDecision NomsKind}.
Variable Kind : Val → NomsKind.
Variable IsPrimitiveKind : NomsKind → bool.
Variables TupleKind RefKind : NomsKind.

(** X6.  [tableDontDescendLists] does not depend on the order of its two
    values, and it holds only for two values of one kind that is neither
    primitive nor the kind of tuples nor the kind of refs. *)
Theorem tableDontDescendLists_symmetric (v1 v2 : Val) :
  RowDiff.tableDontDescendLists Kind IsPrimitiveKind TupleKind RefKind v1 v2
  = RowDiff.tableDontDescendLists Kind IsPrimitiveKind TupleKind RefKind v2 v1
  ∧ (RowDiff.tableDontDescendLists Kind IsPrimitiveKind TupleKind RefKind
       v1 v2 = true
     ↔ Kind v1 = Kind v2 ∧ IsPrimitiveKind (Kind v1) = false ∧
       Kind v1 ≠ TupleKind ∧ Kind v1 ≠ RefKind).
Proof.
  unfold RowDiff.tableDontDescendLists. cbv zeta.
  destruct (decide (Kind v1 = Kind v2)) as [Heq|Hne].
  - rewrite <- Heq. split; [done|].
    rewrite !andb_true_iff, negb_true_iff, !bool_decide_eq_true. tauto.
  - split.
    + rewrite (bool_decide_eq_false_2 (Kind v1 = Kind v2)) by done.
      rewrite (bool_decide_eq_false_2 (Kind v2 = Kind v1)) by done.
      by rewrite !andb_false_r.
    + rewrite !andb_true_iff, negb_true_iff, !bool_decide_eq_true. tauto.
Qed.

End DontDescendProperties.

(** ** The file table persister: files, cache calls and deferred errors *)

Section PersisterFiles.
Context `{!Nbs.Externals} `{!Nbs.Collaborators}.
Implicit Types (w : Nbs.world) (E : Nbs.env) (ftp : Nbs.fsTablePersister).

Hypothesis names_apart :
  ∀ (a : Nbs.addr) (suffix : string),
    Nbs.addr_String a ≠ Nbs.tempTablePrefix +:+ suffix.

Ltac io_unfold :=
  unfold Nbs.persistTable, Nbs.persistTable_temp, Nbs.ConjoinAll_temp,
    Nbs.ioutil_TempFile, Nbs.io_Copy, Nbs.file_Write, Nbs.write_file,
    Nbs.copyN_to, Nbs.file_Close, Nbs.lockEntry, Nbs.unlockEntry, Nbs.put,
    Nbs.ShrinkCache, Nbs.os_Rename, Nbs.Open, Nbs.parse_index,
    Nbs.append_file, Nbs.get_fs, Nbs.set_fs, Nbs.emit, Nbs.bind, Nbs.ret,
    Nbs.or_else in *.

Ltac fs_simpl :=
  repeat first
    [ rewrite lookup_insert_eq
    | rewrite lookup_alter_eq
    | rewrite lookup_alter_ne by (done || congruence)
    | rewrite lookup_insert_ne by (done || congruence)
    | rewrite lookup_delete_eq
    | rewrite lookup_delete_ne by (done || congruence) ];
  simpl.

Lemma cache_calls_app (l1 l2 : list Nbs.event) :
  Nbs.cache_calls (l1 ++ l2) = Nbs.cache_calls l1 ++ Nbs.cache_calls l2.
Proof. induction l1 as [|[] l1 IH]; simpl; by rewrite ?IH. Qed.

Lemma cache_calls_quiet (temp : string) (evs : list Nbs.event) :
  Forall (λ e, e = Nbs.EvReader ∨ ∃ n, e = Nbs.EvCopyN temp n) evs →
  Nbs.cache_calls evs = [].
Proof. induction 1 as [|e evs [->|[n ->]] _ IH]; simpl; done. Qed.

Ltac count_calls :=
  rewrite ?cache_calls_app; simpl; rewrite ?app_nil_r, <- ?app_assoc; simpl.

Lemma copy_sources_keeps (temp : string) (l : list Nbs.sourceWithSize) :
  ∀ w w' (r : option error),
    Nbs.copy_sources temp l w = (w', r) →
    (is_Some (Nbs.w_fs w !! temp) → is_Some (Nbs.w_fs w' !! temp)) ∧
    (r = None → Forall Nbs.copied_in_full l).
Proof.
  induction l as [|s l IH]; intros w w' r Hrun; simpl in Hrun.
  - io_unfold. by simplify_eq.
  - io_unfold. simpl in Hrun. unfold Nbs.copied_in_full at 1, Nbs.copied, Nbs.moved.
    destruct (Nbs.reader (Nbs.source s)) as [rd [err|]] eqn:Hrd;
      [by simplify_eq/=|].
    simpl. destruct (Nbs.io_CopyN rd (GoInt.int64 (Nbs.dataLen s)))
      as [bs [err|]] eqn:Hcp.
    { simplify_eq/=. split_and!; try done.
      fs_simpl. by intros [c ->]. }
    simpl in Hrun. case_bool_decide as Hn.
    + apply IH in Hrun as (Htemp & Hfull). simpl in *.
      split.
      * intros [c Hc]. apply Htemp. fs_simpl. by rewrite Hc.
      * intros Hr. apply Forall_cons. split; [|by apply Hfull].
        by rewrite Hrd; simpl; rewrite Hcp.
    + simplify_eq/=. split_and!; try done. fs_simpl. by intros [c ->].
Qed.

(** *** The temporary file, once more *)

Lemma persistTable_temp_keeps ftp E (name : Nbs.addr) (data : list byte)
    w w' (tempName : string) (ferr : option error) :
  Nbs.persistTable_temp ftp E name data w = (w', (tempName, ferr)) →
  (Nbs.cache_calls (Nbs.w_log w') = Nbs.cache_calls (Nbs.w_log w)
   ∨ (Nbs.indexCache ftp = true ∧ (Nbs.parseTableIndex data).2 = None ∧
      Nbs.cache_calls (Nbs.w_log w')
      = Nbs.cache_calls (Nbs.w_log w)
          ++ [Nbs.EvLockEntry name; Nbs.EvPut name; Nbs.EvUnlockEntry name])) ∧
  (Nbs.indexCache ftp = true → ferr = None →
   Nbs.cache_calls (Nbs.w_log w')
   = Nbs.cache_calls (Nbs.w_log w)
       ++ [Nbs.EvLockEntry name; Nbs.EvPut name; Nbs.EvUnlockEntry name]) ∧
  (∀ suffix, Nbs.e_TempFile E = (suffix, None) →
     Nbs.w_fs w !! Nbs.temp_path ftp suffix = None →
     is_Some (Nbs.w_fs w' !! Nbs.temp_path ftp suffix) ∧
     (ferr = None → tempName = Nbs.temp_path ftp suffix)).
Proof.
  intros Hrun. io_unfold. unfold Nbs.temp_path.
  repeat (case_match; simplify_eq/=); split_and!; try done.
  all: try (left; by count_calls).
  all: try (right; split_and!; try done; by count_calls).
  all: try (intros _ _; by count_calls).
  all: intros suffix' ? Hfresh; simplify_eq/=;
    split_and!; try done; by fs_simpl; eauto.
Qed.

Lemma ConjoinAll_temp_keeps ftp E (plan : Nbs.compactionPlan)
    (name : Nbs.addr) w w' (tempName : string) (ferr : option error) :
  Nbs.ConjoinAll_temp ftp E plan name w = (w', (tempName, ferr)) →
  (Nbs.cache_calls (Nbs.w_log w') = Nbs.cache_calls (Nbs.w_log w)
   ∨ (Nbs.indexCache ftp = true ∧
      (Nbs.parseTableIndex (Nbs.mergedIndex plan)).2 = None ∧
      Nbs.cache_calls (Nbs.w_log w')
      = Nbs.cache_calls (Nbs.w_log w) ++ [Nbs.EvPut name])) ∧
  (ferr = None →
   Forall Nbs.copied_in_full (Nbs.sws plan) ∧
   (Nbs.indexCache ftp = true →
    Nbs.cache_calls (Nbs.w_log w')
    = Nbs.cache_calls (Nbs.w_log w) ++ [Nbs.EvPut name])) ∧
  (∀ suffix, Nbs.e_TempFile E = (suffix, None) →
     Nbs.w_fs w !! Nbs.temp_path ftp suffix = None →
     is_Some (Nbs.w_fs w' !! Nbs.temp_path ftp suffix) ∧
     (ferr = None → tempName = Nbs.temp_path ftp suffix)).
Proof.
  intros Hrun. io_unfold. unfold Nbs.temp_path.
  destruct (Nbs.e_TempFile E) as [suffix [err|]]; simpl in Hrun.
  { simplify_eq/=. split_and!; try done. left. by count_calls. }
  destruct (Nbs.w_fs w !! _) eqn:Hfresh; simpl in Hrun.
  { simplify_eq/=. split_and!; try done; [left; by count_calls|].
    intros ? ? ?. by simplify_eq. }
  destruct (Nbs.copy_sources _ _ _) as [w2 r] eqn:Hloop.
  pose proof (copy_sources_spec _ _ _ _ _ Hloop)
    as (_ & (evs & Hlog & Hevs) & _).
  apply cache_calls_quiet in Hevs.
  apply copy_sources_keeps in Hloop as (Htemp & Hfull).
  simpl in *. specialize (Htemp ltac:(rewrite lookup_insert_eq; eauto)).
  destruct Htemp as [c Hc].
  repeat (case_match; simplify_eq/=); split_and!; try done.
  all: try (left; rewrite ?cache_calls_app, Hlog, !cache_calls_app, Hevs;
            simpl; by rewrite ?app_nil_r).
  all: try (right; split_and!; try done;
            rewrite ?cache_calls_app, Hlog, !cache_calls_app, Hevs;
            simpl; by rewrite ?app_nil_r).
  all: try (intros _; split; [by apply Hfull|]; try done; intros _;
            rewrite ?cache_calls_app, Hlog, !cache_calls_app, Hevs;
            simpl; by rewrite ?app_nil_r).
  all: intros suffix' ? Hfresh'; simplify_eq/=; split; try done;
    fs_simpl; rewrite ?Hc; by eauto.
Qed.

(** *** The whole call *)

(** X14.  [Persist] and [ConjoinAll] touch no file but their temporary
    file and the file under the final name of the table: every other path
    of the directory holds what it held before the call. *)
Theorem other_files_untouched ftp E (mt : Nbs.memTable)
    (haver : Nbs.chunkReader) (sources : list Nbs.chunkSource) w
    (p : string) :
  (∀ suffix, p ≠ Nbs.temp_path ftp suffix) →
  (p ≠ Nbs.final_path ftp (Nbs.mt_write mt haver).1.1.1 →
   Nbs.w_fs (Nbs.Persist ftp E mt haver w).1 !! p = Nbs.w_fs w !! p)
  ∧ (p ≠ Nbs.final_path ftp
           (Nbs.nameFromSuffixes
              (Nbs.suffixes (Nbs.planConjoin sources).1)) →
     Nbs.w_fs (Nbs.ConjoinAll ftp E sources w).1 !! p = Nbs.w_fs w !! p).
Proof.
  intros Hp. split; intros Hfinal.
  - unfold Nbs.Persist.
    destruct (Nbs.mt_write mt haver) as [[[name data] count] [e|]];
      [done|]. simpl in Hfinal.
    unfold Nbs.persistTable. destruct (count =? 0); [done|].
    unfold Nbs.bind at 1.
    destruct (Nbs.persistTable_temp _ _ _ _ _)
      as [w1 [tempName ferr]] eqn:Htemp.
    apply persistTable_temp_spec in Htemp as (Hfr & Hok & _).
    specialize (Hfr p Hp). destruct ferr as [e|]; [done|].
    destruct (Hok eq_refl) as [[suffix ->] _].
    fold (Nbs.final_path ftp name). io_unfold.
    repeat (case_match; simplify_eq/=); try done.
    by rewrite lookup_insert_ne, lookup_delete_ne.
  - unfold Nbs.ConjoinAll.
    destruct (Nbs.planConjoin sources) as [plan [e|]]; [done|].
    simpl in Hfinal. destruct (Nbs.chunkCount plan =? 0); [done|].
    unfold Nbs.bind at 1.
    destruct (Nbs.ConjoinAll_temp _ _ _ _ _)
      as [w1 [tempName ferr]] eqn:Htemp.
    apply ConjoinAll_temp_spec in Htemp as (Hfr & Hok & _).
    specialize (Hfr p Hp). destruct ferr as [e|]; [done|].
    destruct (Hok eq_refl) as [[suffix ->] _].
    fold (Nbs.final_path ftp (Nbs.nameFromSuffixes (Nbs.suffixes plan))).
    io_unfold. repeat (case_match; simplify_eq/=); try done.
    by rewrite lookup_insert_ne, lookup_delete_ne.
Qed.

(** The calls to the cache that [persistTable] and [ConjoinAll] add to the
    log. *)
Lemma persistTable_calls ftp E (name : Nbs.addr) (data : list byte)
    (count : Z) w w' (res : option Nbs.chunkSource * option error) :
  Nbs.persistTable ftp E name data count w = (w', res) →
  (Nbs.cache_calls (Nbs.w_log w') = Nbs.cache_calls (Nbs.w_log w)
   ∨ (Nbs.indexCache ftp = true ∧ (Nbs.parseTableIndex data).2 = None ∧
      Nbs.cache_calls (Nbs.w_log w')
      = Nbs.cache_calls (Nbs.w_log w)
          ++ [Nbs.EvLockEntry name; Nbs.EvPut name; Nbs.EvUnlockEntry name])) ∧
  (Nbs.indexCache ftp = true → count ≠ 0 → res.2 = None →
   Nbs.cache_calls (Nbs.w_log w')
   = Nbs.cache_calls (Nbs.w_log w)
       ++ [Nbs.EvLockEntry name; Nbs.EvPut name; Nbs.EvUnlockEntry name]).
Proof.
  intros Hrun. unfold Nbs.persistTable in Hrun.
  destruct (Z.eqb_spec count 0) as [->|Hcount].
  { unfold Nbs.ret in Hrun. simplify_eq. split; [by left|done]. }
  unfold Nbs.bind at 1 in Hrun.
  destruct (Nbs.persistTable_temp _ _ _ _ _)
    as [w1 [tempName ferr]] eqn:Htemp.
  apply persistTable_temp_keeps in Htemp as (Hcalls & Hput & _).
  assert (Nbs.cache_calls (Nbs.w_log w') = Nbs.cache_calls (Nbs.w_log w1))
    as Hsame.
  { io_unfold. repeat (case_match; simplify_eq/=); by count_calls. }
  rewrite Hsame. split; [done|].
  intros Hon _ Hres. apply Hput; [done|].
  io_unfold. repeat (case_match; simplify_eq/=); done.
Qed.

Lemma ConjoinAll_calls ftp E (sources : list Nbs.chunkSource)
    (plan : Nbs.compactionPlan) w w'
    (res : option Nbs.chunkSource * option error) :
  Nbs.planConjoin sources = (plan, None) → Nbs.chunkCount plan ≠ 0 →
  Nbs.ConjoinAll ftp E sources w = (w', res) →
  let name := Nbs.nameFromSuffixes (Nbs.suffixes plan) in
  (Nbs.cache_calls (Nbs.w_log w') = Nbs.cache_calls (Nbs.w_log w)
   ∨ (Nbs.indexCache ftp = true ∧
      (Nbs.parseTableIndex (Nbs.mergedIndex plan)).2 = None ∧
      Nbs.cache_calls (Nbs.w_log w')
      = Nbs.cache_calls (Nbs.w_log w) ++ [Nbs.EvPut name])) ∧
  (Nbs.indexCache ftp = true → res.2 = None →
   Nbs.cache_calls (Nbs.w_log w')
   = Nbs.cache_calls (Nbs.w_log w) ++ [Nbs.EvPut name]).
Proof.
  intros Hplan Hcount Hrun name. unfold Nbs.ConjoinAll in Hrun.
  rewrite Hplan in Hrun.
  destruct (Z.eqb_spec (Nbs.chunkCount plan) 0) as [?|_]; [done|].
  unfold Nbs.bind at 1 in Hrun.
  destruct (Nbs.ConjoinAll_temp _ _ _ _ _)
    as [w1 [tempName ferr]] eqn:Htemp.
  apply ConjoinAll_temp_keeps in Htemp as (Hcalls & Hdone & _).
  fold name in Hcalls, Hdone.
  assert (Nbs.cache_calls (Nbs.w_log w') = Nbs.cache_calls (Nbs.w_log w1))
    as Hsame.
  { io_unfold. repeat (case_match; simplify_eq/=); by count_calls. }
  rewrite Hsame. split; [done|].
  intros Hon Hres. apply Hdone; [|done].
  io_unfold. repeat (case_match; simplify_eq/=); done.
Qed.

(** What has become of the temporary file and of the final name when
    [persistTable] and [ConjoinAll] return. *)
Lemma persistTable_keeps ftp E (name : Nbs.addr) (data : list byte)
    (count : Z) w w' (res : option Nbs.chunkSource * option error)
    (suffix : string) :
  Nbs.persistTable ftp E name data count w = (w', res) → count ≠ 0 →
  Nbs.e_TempFile E = (suffix, None) →
  Nbs.w_fs w !! Nbs.temp_path ftp suffix = None →
  (Nbs.w_fs w' !! Nbs.temp_path ftp suffix = None ∧
   Nbs.w_fs w' !! Nbs.final_path ftp name = Some data ∧
   res = Nbs.e_Open E)
  ∨ (is_Some (Nbs.w_fs w' !! Nbs.temp_path ftp suffix) ∧
     Nbs.w_fs w' !! Nbs.final_path ftp name
       = Nbs.w_fs w !! Nbs.final_path ftp name ∧
     res.1 = None ∧ is_Some res.2).
Proof.
  intros Hrun Hcount Hsuffix Hfresh. unfold Nbs.persistTable in Hrun.
  destruct (Z.eqb_spec count 0) as [?|_]; [done|].
  unfold Nbs.bind at 1 in Hrun.
  destruct (Nbs.persistTable_temp _ _ _ _ _)
    as [w1 [tempName ferr]] eqn:Htemp.
  pose proof (persistTable_temp_spec _ _ _ _ _ _ _ _ Htemp)
    as (Hfr & Hok & _).
  specialize (Hfr _ (temp_ne_final names_apart ftp name)).
  apply persistTable_temp_keeps in Htemp as (_ & _ & Hfile).
  fold (Nbs.final_path ftp name) in Hrun.
  destruct (Hfile suffix Hsuffix Hfresh) as (Hthere & Hname).
  destruct ferr as [e|].
  { io_unfold. simplify_eq/=. right. split_and!; eauto. }
  rewrite (Hname eq_refl) in *. destruct (Hok eq_refl) as [_ Hdata].
  io_unfold. repeat (case_match; simplify_eq/=).
  all: try (right; split_and!; by eauto).
  left. split_and!; [|by fs_simpl|done].
  rewrite lookup_insert_ne by (by apply temp_ne_final).
  apply lookup_delete_eq.
Qed.

Lemma ConjoinAll_keeps ftp E (sources : list Nbs.chunkSource)
    (plan : Nbs.compactionPlan) w w'
    (res : option Nbs.chunkSource * option error) :
  Nbs.planConjoin sources = (plan, None) → Nbs.chunkCount plan ≠ 0 →
  Nbs.ConjoinAll ftp E sources w = (w', res) →
  let name := Nbs.nameFromSuffixes (Nbs.suffixes plan) in
  (res.2 = None → Forall Nbs.copied_in_full (Nbs.sws plan)) ∧
  (∀ suffix, Nbs.e_TempFile E = (suffix, None) →
     Nbs.w_fs w !! Nbs.temp_path ftp suffix = None →
     (Nbs.w_fs w' !! Nbs.temp_path ftp suffix = None ∧
      Nbs.w_fs w' !! Nbs.final_path ftp name = Some (Nbs.plan_image plan) ∧
      res = Nbs.e_Open E)
     ∨ (is_Some (Nbs.w_fs w' !! Nbs.temp_path ftp suffix) ∧
        Nbs.w_fs w' !! Nbs.final_path ftp name
          = Nbs.w_fs w !! Nbs.final_path ftp name ∧
        res.1 = None ∧ is_Some res.2)).
Proof.
  intros Hplan Hcount Hrun name. unfold Nbs.ConjoinAll in Hrun.
  rewrite Hplan in Hrun.
  destruct (Z.eqb_spec (Nbs.chunkCount plan) 0) as [?|_]; [done|].
  unfold Nbs.bind at 1 in Hrun.
  destruct (Nbs.ConjoinAll_temp _ _ _ _ _)
    as [w1 [tempName ferr]] eqn:Htemp.
  pose proof (ConjoinAll_temp_spec _ _ _ _ _ _ _ _ Htemp)
    as (Hfr & Hok & _).
  specialize (Hfr _ (temp_ne_final names_apart ftp
                       (Nbs.nameFromSuffixes (Nbs.suffixes plan)))).
  apply ConjoinAll_temp_keeps in Htemp as (_ & Hdone & Hfile).
  fold name in Hrun, Hfr.
  fold (Nbs.final_path ftp name) in Hrun.
  split.
  - intros Hres. apply Hdone.
    io_unfold. repeat (case_match; simplify_eq/=); done.
  - intros suffix Hsuffix Hfresh.
    destruct (Hfile suffix Hsuffix Hfresh) as (Hthere & Hname).
    destruct ferr as [e|].
    { io_unfold. simplify_eq/=. right. split_and!; eauto. }
    rewrite (Hname eq_refl) in *. destruct (Hok eq_refl) as [_ Hdata].
    io_unfold. repeat (case_match; simplify_eq/=).
    all: try (right; split_and!; by eauto).
    left. split_and!; [|by fs_simpl|done].
    rewrite lookup_insert_ne by (by apply temp_ne_final).
    apply lookup_delete_eq.
Qed.

(** X15.  The temporary file of a call ends in one of two ways, once
    [ioutil.TempFile] has created it.  Either the rename was done: no file
    is left under the temporary name, the final name holds the whole table,
    and the call returns what the reopening returns.  Or the rename was not
    done, because it failed or was not reached: the call returns [nil] and
    an error, the file under the final name is what it was, and the
    temporary file is still where [ioutil.TempFile] created it; nothing
    removes it. *)
Theorem temp_file_renamed_or_left ftp E (mt : Nbs.memTable)
    (haver : Nbs.chunkReader) (sources : list Nbs.chunkSource) w
    (name : Nbs.addr) (data : list byte) (count : Z)
    (plan : Nbs.compactionPlan) (suffix : string) :
  Nbs.e_TempFile E = (suffix, None) →
  Nbs.w_fs w !! Nbs.temp_path ftp suffix = None →
  (Nbs.mt_write mt haver = (name, data, count, None) → count ≠ 0 →
   (Nbs.w_fs (Nbs.Persist ftp E mt haver w).1
      !! Nbs.temp_path ftp suffix = None ∧
    Nbs.w_fs (Nbs.Persist ftp E mt haver w).1 !! Nbs.final_path ftp name
      = Some data ∧
    (Nbs.Persist ftp E mt haver w).2 = Nbs.e_Open E)
   ∨ (is_Some (Nbs.w_fs (Nbs.Persist ftp E mt haver w).1
                 !! Nbs.temp_path ftp suffix) ∧
      Nbs.w_fs (Nbs.Persist ftp E mt haver w).1 !! Nbs.final_path ftp name
        = Nbs.w_fs w !! Nbs.final_path ftp name ∧
      (Nbs.Persist ftp E mt haver w).2.1 = None ∧
      is_Some (Nbs.Persist ftp E mt haver w).2.2))
  ∧ (Nbs.planConjoin sources = (plan, None) → Nbs.chunkCount plan ≠ 0 →
     (Nbs.w_fs (Nbs.ConjoinAll ftp E sources w).1
        !! Nbs.temp_path ftp suffix = None ∧
      Nbs.w_fs (Nbs.ConjoinAll ftp E sources w).1
        !! Nbs.final_path ftp (Nbs.nameFromSuffixes (Nbs.suffixes plan))
        = Some (Nbs.plan_image plan) ∧
      (Nbs.ConjoinAll ftp E sources w).2 = Nbs.e_Open E)
     ∨ (is_Some (Nbs.w_fs (Nbs.ConjoinAll ftp E sources w).1
                   !! Nbs.temp_path ftp suffix) ∧
        Nbs.w_fs (Nbs.ConjoinAll ftp E sources w).1
          !! Nbs.final_path ftp (Nbs.nameFromSuffixes (Nbs.suffixes plan))
          = Nbs.w_fs w
              !! Nbs.final_path ftp
                   (Nbs.nameFromSuffixes (Nbs.suffixes plan)) ∧
        (Nbs.ConjoinAll ftp E sources w).2.1 = None ∧
        is_Some (Nbs.ConjoinAll ftp E sources w).2.2)).
Proof.
  intros Hsuffix Hfresh. split.
  - intros Hwrite Hcount. unfold Nbs.Persist. rewrite Hwrite.
    destruct (Nbs.persistTable _ _ _ _ _ _) as [w' res] eqn:Hrun.
    exact (persistTable_keeps _ _ _ _ _ _ _ _ _ Hrun Hcount Hsuffix Hfresh).
  - intros Hplan Hcount.
    destruct (Nbs.ConjoinAll _ _ _ _) as [w' res] eqn:Hrun.
    destruct (ConjoinAll_keeps _ _ _ _ _ _ _ Hplan Hcount Hrun)
      as (_ & Hfile).
    exact (Hfile suffix Hsuffix Hfresh).
Qed.

(** X16.  The calls to the index cache.  A call of [Persist] adds to the
    log either no call to the cache, or, with a cache configured and an
    index that parsed, exactly [lockEntry], [put] and [unlockEntry] of the
    name of the new table; a call that succeeds with a cache configured
    has made them.  [ConjoinAll] likewise, with the one [put] of the name
    of the conjoined table.  So a persister without a cache never calls
    it, no index is put for bytes that the parser rejects, and no name but
    that of the new table is touched. *)
Theorem cache_called_for_new_table_only ftp E (mt : Nbs.memTable)
    (haver : Nbs.chunkReader) (sources : list Nbs.chunkSource) w
    (name : Nbs.addr) (data : list byte) (count : Z) (werr : option error)
    (plan : Nbs.compactionPlan) :
  (Nbs.mt_write mt haver = (name, data, count, werr) →
   (Nbs.cache_calls (Nbs.w_log (Nbs.Persist ftp E mt haver w).1)
      = Nbs.cache_calls (Nbs.w_log w)
    ∨ (Nbs.indexCache ftp = true ∧ (Nbs.parseTableIndex data).2 = None ∧
       Nbs.cache_calls (Nbs.w_log (Nbs.Persist ftp E mt haver w).1)
       = Nbs.cache_calls (Nbs.w_log w)
           ++ [Nbs.EvLockEntry name; Nbs.EvPut name;
               Nbs.EvUnlockEntry name])) ∧
   (Nbs.indexCache ftp = true → werr = None → count ≠ 0 →
    (Nbs.Persist ftp E mt haver w).2.2 = None →
    Nbs.cache_calls (Nbs.w_log (Nbs.Persist ftp E mt haver w).1)
    = Nbs.cache_calls (Nbs.w_log w)
        ++ [Nbs.EvLockEntry name; Nbs.EvPut name; Nbs.EvUnlockEntry name]))
  ∧ (Nbs.planConjoin sources = (plan, None) → Nbs.chunkCount plan ≠ 0 →
     (Nbs.cache_calls (Nbs.w_log (Nbs.ConjoinAll ftp E sources w).1)
        = Nbs.cache_calls (Nbs.w_log w)
      ∨ (Nbs.indexCache ftp = true ∧
         (Nbs.parseTableIndex (Nbs.mergedIndex plan)).2 = None ∧
         Nbs.cache_calls (Nbs.w_log (Nbs.ConjoinAll ftp E sources w).1)
         = Nbs.cache_calls (Nbs.w_log w)
             ++ [Nbs.EvPut (Nbs.nameFromSuffixes (Nbs.suffixes plan))])) ∧
     (Nbs.indexCache ftp = true →
      (Nbs.ConjoinAll ftp E sources w).2.2 = None →
      Nbs.cache_calls (Nbs.w_log (Nbs.ConjoinAll ftp E sources w).1)
      = Nbs.cache_calls (Nbs.w_log w)
          ++ [Nbs.EvPut (Nbs.nameFromSuffixes (Nbs.suffixes plan))])).
Proof.
  split.
  - intros Hwrite. unfold Nbs.Persist. rewrite Hwrite.
    destruct werr as [e|]; [split; [by left|done]|].
    destruct (Nbs.persistTable _ _ _ _ _ _) as [w' res] eqn:Hrun.
    destruct (persistTable_calls _ _ _ _ _ _ _ _ Hrun) as (? & Hput).
    split; [done|]. intros Hon _ Hcount Hres. by apply Hput.
  - intros Hplan Hcount.
    destruct (Nbs.ConjoinAll _ _ _ _) as [w' res] eqn:Hrun.
    exact (ConjoinAll_calls _ _ _ _ _ _ _ Hplan Hcount Hrun).
Qed.

(** X17.  Once [Persist] has written the temporary file and parsed its
    index, an error of the deferred [unlockEntry], or else of the deferred
    [Close], is the error of the call, which returns [nil] and stops
    there: the log ends with the [Close], so neither [ShrinkCache] nor the
    rename nor [Open] is called, the file under the final name is what it
    was, and the temporary file stays, holding the whole image.  With a
    cache configured the index has been handed to it all the same: the log
    shows [lockEntry], [put] and [unlockEntry] of the name. *)
Theorem deferred_error_aborts_Persist ftp E (mt : Nbs.memTable)
    (haver : Nbs.chunkReader) w (name : Nbs.addr) (data : list byte)
    (count : Z) (suffix : string) (e : error) :
  Nbs.mt_write mt haver = (name, data, count, None) → count ≠ 0 →
  Nbs.e_TempFile E = (suffix, None) →
  Nbs.w_fs w !! Nbs.temp_path ftp suffix = None →
  Nbs.e_Copy E = None → (Nbs.parseTableIndex data).2 = None →
  Nbs.or_else (if Nbs.indexCache ftp then Nbs.e_unlockEntry E else None)
              (Nbs.e_Close E) = Some e →
  (Nbs.Persist ftp E mt haver w).2 = (None, Some e) ∧
  Nbs.w_log (Nbs.Persist ftp E mt haver w).1
  = Nbs.w_log w
      ++ [Nbs.EvTempFile (Nbs.dir ftp) Nbs.tempTablePrefix;
          Nbs.EvCopy (Nbs.temp_path ftp suffix); Nbs.EvParse]
      ++ (if Nbs.indexCache ftp
          then [Nbs.EvLockEntry name; Nbs.EvPut name; Nbs.EvUnlockEntry name]
          else [])
      ++ [Nbs.EvClose (Nbs.temp_path ftp suffix)] ∧
  Nbs.w_fs (Nbs.Persist ftp E mt haver w).1 !! Nbs.final_path ftp name
  = Nbs.w_fs w !! Nbs.final_path ftp name ∧
  Nbs.w_fs (Nbs.Persist ftp E mt haver w).1 !! Nbs.temp_path ftp suffix
  = Some data.
Proof.
  intros Hwrite Hcount Hsuffix Hfresh Hcopy Hparse Hdefer.
  pose proof (temp_ne_final names_apart ftp name suffix) as Hne.
  unfold Nbs.Persist. rewrite Hwrite. unfold Nbs.persistTable.
  destruct (Z.eqb_spec count 0) as [?|_]; [done|].
  unfold Nbs.final_path, Nbs.temp_path in *. io_unfold.
  rewrite Hsuffix. simpl. rewrite Hfresh. simpl. rewrite Hcopy. simpl.
  destruct (Nbs.parseTableIndex data) as [index perr]. simpl in Hparse.
  subst perr. simpl.
  destruct (Nbs.indexCache ftp), (Nbs.e_unlockEntry E), (Nbs.e_Close E);
    simplify_eq/=; split_and!; try done;
    try (by rewrite <- ?app_assoc);
    try (by rewrite lookup_alter_ne, lookup_insert_ne by done);
    by rewrite lookup_alter_eq, lookup_insert_eq.
Qed.

(** X18.  [ConjoinAll] succeeds only if every source of the plan was
    copied in full: its reader opened, [io.CopyN] reported no error, and
    the number of bytes it moved is the length the plan declares. *)
Theorem conjoin_success_copied_all ftp E (sources : list Nbs.chunkSource) w
    (plan : Nbs.compactionPlan) :
  Nbs.planConjoin sources = (plan, None) → Nbs.chunkCount plan ≠ 0 →
  (Nbs.ConjoinAll ftp E sources w).2.2 = None →
  Forall Nbs.copied_in_full (Nbs.sws plan).
Proof.
  intros Hplan Hcount.
  destruct (Nbs.ConjoinAll _ _ _ _) as [w' res] eqn:Hrun.
  destruct (ConjoinAll_keeps _ _ _ _ _ _ _ Hplan Hcount Hrun)
    as (Hdone & _).
  intros Hres. by apply Hdone.
Qed.

End PersisterFiles.

(** ** Instances in the small directory *)

(** An instance of X4: a row that goes from one copy to three. *)
Lemma convertDiff_modified_added_witness :
  RowDiff.convert_keyless
    (RowDiff.mkDifference RowDiff.DiffChangeModified
       (RowDiff.keyless_row 1) (RowDiff.keyless_row 3) (RowDiff.UintVal 7))
  = Returns
      (RowDiff.mkDifference RowDiff.DiffChangeAdded None
         (RowDiff.keyless_row 3) (RowDiff.UintVal 7),
       3 - 1, None).
Proof.
  apply (convertDiff_modified_added RowDiff.uint_tuple_get 1 (λ _, "k")
           (RowDiff.mkDifference RowDiff.DiffChangeModified
              (RowDiff.keyless_row 1) (RowDiff.keyless_row 3)
              (RowDiff.UintVal 7)) 1 3); try reflexivity.
  lia.
Defined.

(** An instance of X11: two chunks persisted, two tables conjoined. *)
Lemma successful_call_installs_whole_table_witness :
  (@Nbs.mt_write _ Demo.collaborators Demo.mt_two tt
     = (7%N, [x01; x02; x03], 2, None) → 2 ≠ 0 →
   (Demo.Persist Demo.ftp Demo.all_ok Demo.mt_two tt Demo.empty_dir).2.2
     = None →
   Nbs.w_fs
     (Demo.Persist Demo.ftp Demo.all_ok Demo.mt_two tt Demo.empty_dir).1
     !! Demo.table_path 7 = Some [x01; x02; x03])
  ∧ (@Nbs.planConjoin _ Demo.collaborators [Demo.src_a; Demo.src_b]
       = (Nbs.mkPlan
            [Nbs.mkSourceWithSize Demo.src_a 2;
             Nbs.mkSourceWithSize Demo.src_b 1]
            [x01; x02] 2 [x01; x02], None) →
     2 ≠ 0 →
     (Demo.ConjoinAll Demo.ftp Demo.all_ok [Demo.src_a; Demo.src_b]
        Demo.empty_dir).2.2 = None →
     Nbs.w_fs
       (Demo.ConjoinAll Demo.ftp Demo.all_ok [Demo.src_a; Demo.src_b]
          Demo.empty_dir).1 !! Demo.table_path 2
     = Some [x0a; x0b; x0c; x01; x02]).
Proof.
  exact (@successful_call_installs_whole_table
           Demo.externals Demo.collaborators demo_names_apart
           Demo.ftp Demo.all_ok Demo.mt_two tt [Demo.src_a; Demo.src_b]
           Demo.empty_dir 7%N [x01; x02; x03] 2
           (Nbs.mkPlan
              [Nbs.mkSourceWithSize Demo.src_a 2;
               Nbs.mkSourceWithSize Demo.src_b 1]
              [x01; x02] 2 [x01; x02])).
Defined.

(** An instance of X12: the log of a [Persist] into the empty
    directory. *)
Lemma Persist_puts_locked_witness :
  Nbs.puts_locked []
    (Nbs.w_log
       (Demo.Persist Demo.ftp Demo.all_ok Demo.mt_two tt Demo.empty_dir).1)
  = true.
Proof.
  apply (@Persist_puts_locked Demo.externals Demo.collaborators
           demo_names_apart Demo.ftp Demo.all_ok Demo.mt_two tt Demo.empty_dir).
  reflexivity.
Defined.

(** An instance of X13: the same log. *)
Lemma Persist_shrinks_before_install_witness :
  Nbs.shrinks_before_install false
    (Nbs.w_log
       (Demo.Persist Demo.ftp Demo.all_ok Demo.mt_two tt Demo.empty_dir).1)
  = true.
Proof.
  apply (@Persist_shrinks_before_install Demo.externals Demo.collaborators
           Demo.ftp Demo.all_ok Demo.mt_two tt Demo.empty_dir).
  reflexivity.
Defined.

Lemma manifest_is_no_temp_file (suffix : string) :
  "db/manifest" ≠ Nbs.temp_path Demo.ftp suffix.
Proof. unfold Nbs.temp_path, Nbs.filepath_Join. simpl. discriminate. Qed.

(** An instance of X14: the manifest of the directory outlives a
    [Persist] and a [ConjoinAll]. *)
Lemma other_files_untouched_witness :
  ("db/manifest" ≠ Demo.table_path 7 →
   Nbs.w_fs
     (Demo.Persist Demo.ftp Demo.all_ok Demo.mt_two tt
        Demo.dir_with_manifest).1 !! "db/manifest"
   = Nbs.w_fs Demo.dir_with_manifest !! "db/manifest")
  ∧ ("db/manifest" ≠ Demo.table_path 2 →
     Nbs.w_fs
       (Demo.ConjoinAll Demo.ftp Demo.all_ok [Demo.src_a; Demo.src_b]
          Demo.dir_with_manifest).1 !! "db/manifest"
     = Nbs.w_fs Demo.dir_with_manifest !! "db/manifest").
Proof.
  exact (@other_files_untouched Demo.externals Demo.collaborators
           Demo.ftp Demo.all_ok Demo.mt_two tt [Demo.src_a; Demo.src_b]
           Demo.dir_with_manifest "db/manifest" manifest_is_no_temp_file).
Defined.

Example manifest_survives :
  Nbs.w_fs
    (Demo.Persist Demo.ftp Demo.all_ok Demo.mt_two tt
       Demo.dir_with_manifest).1 !! "db/manifest" = Some [x2a].
Proof. vm_compute. reflexivity. Qed.

(** An instance of X15: the temporary file cannot be closed, so the rename
    is not reached, while the reopening would have succeeded. *)
Lemma temp_file_renamed_or_left_witness :
  (@Nbs.mt_write _ Demo.collaborators Demo.mt_two tt
     = (7%N, [x01; x02; x03], 2, None) → 2 ≠ 0 →
   (Nbs.w_fs
      (Demo.Persist Demo.ftp Demo.close_fails Demo.mt_two tt
         Demo.empty_dir).1 !! Nbs.temp_path Demo.ftp "001" = None ∧
    Nbs.w_fs
      (Demo.Persist Demo.ftp Demo.close_fails Demo.mt_two tt
         Demo.empty_dir).1 !! Demo.table_path 7 = Some [x01; x02; x03] ∧
    (Demo.Persist Demo.ftp Demo.close_fails Demo.mt_two tt
       Demo.empty_dir).2 = Nbs.e_Open Demo.close_fails)
   ∨ (is_Some
        (Nbs.w_fs
           (Demo.Persist Demo.ftp Demo.close_fails Demo.mt_two tt
              Demo.empty_dir).1 !! Nbs.temp_path Demo.ftp "001") ∧
      Nbs.w_fs
        (Demo.Persist Demo.ftp Demo.close_fails Demo.mt_two tt
           Demo.empty_dir).1 !! Demo.table_path 7
        = Nbs.w_fs Demo.empty_dir !! Demo.table_path 7 ∧
      (Demo.Persist Demo.ftp Demo.close_fails Demo.mt_two tt
         Demo.empty_dir).2.1 = None ∧
      is_Some
        (Demo.Persist Demo.ftp Demo.close_fails Demo.mt_two tt
           Demo.empty_dir).2.2))
  ∧ (@Nbs.planConjoin _ Demo.collaborators [Demo.src_a; Demo.src_b]
       = (Nbs.mkPlan
            [Nbs.mkSourceWithSize Demo.src_a 2;
             Nbs.mkSourceWithSize Demo.src_b 1]
            [x01; x02] 2 [x01; x02], None) →
     2 ≠ 0 →
     (Nbs.w_fs
        (Demo.ConjoinAll Demo.ftp Demo.close_fails [Demo.src_a; Demo.src_b]
           Demo.empty_dir).1 !! Nbs.temp_path Demo.ftp "001" = None ∧
      Nbs.w_fs
        (Demo.ConjoinAll Demo.ftp Demo.close_fails [Demo.src_a; Demo.src_b]
           Demo.empty_dir).1 !! Demo.table_path 2
        = Some [x0a; x0b; x0c; x01; x02] ∧
      (Demo.ConjoinAll Demo.ftp Demo.close_fails [Demo.src_a; Demo.src_b]
         Demo.empty_dir).2 = Nbs.e_Open Demo.close_fails)
     ∨ (is_Some
          (Nbs.w_fs
             (Demo.ConjoinAll Demo.ftp Demo.close_fails
                [Demo.src_a; Demo.src_b] Demo.empty_dir).1
             !! Nbs.temp_path Demo.ftp "001") ∧
        Nbs.w_fs
          (Demo.ConjoinAll Demo.ftp Demo.close_fails
             [Demo.src_a; Demo.src_b] Demo.empty_dir).1 !! Demo.table_path 2
          = Nbs.w_fs Demo.empty_dir !! Demo.table_path 2 ∧
        (Demo.ConjoinAll Demo.ftp Demo.close_fails [Demo.src_a; Demo.src_b]
           Demo.empty_dir).2.1 = None ∧
        is_Some
          (Demo.ConjoinAll Demo.ftp Demo.close_fails
             [Demo.src_a; Demo.src_b] Demo.empty_dir).2.2)).
Proof.
  apply (@temp_file_renamed_or_left
           Demo.externals Demo.collaborators demo_names_apart
           Demo.ftp Demo.close_fails Demo.mt_two tt
           [Demo.src_a; Demo.src_b] Demo.empty_dir 7%N [x01; x02; x03] 2
           (Nbs.mkPlan
              [Nbs.mkSourceWithSize Demo.src_a 2;
               Nbs.mkSourceWithSize Demo.src_b 1]
              [x01; x02] 2 [x01; x02]) "001").
  - reflexivity.
  - vm_compute. reflexivity.
Defined.

(** The three ways a [Persist] of table 7 into the empty directory can
    end: the close fails and the rename is not reached; the rename fails;
    every call succeeds. *)
Example temp_file_left_before_rename :
  (Demo.Persist Demo.ftp Demo.close_fails Demo.mt_two tt Demo.empty_dir).2
    = (None, Some "close failed") ∧
  Nbs.w_fs
    (Demo.Persist Demo.ftp Demo.close_fails Demo.mt_two tt
       Demo.empty_dir).1 !! "db/nbs_table_001" = Some [x01; x02; x03] ∧
  Nbs.w_fs
    (Demo.Persist Demo.ftp Demo.close_fails Demo.mt_two tt
       Demo.empty_dir).1 !! "db/t7" = None.
Proof. vm_compute. done. Qed.

Example temp_file_left_behind :
  (Demo.Persist Demo.ftp Demo.rename_fails Demo.mt_two tt Demo.empty_dir).2
    = (None, Some "rename failed") ∧
  Nbs.w_fs
    (Demo.Persist Demo.ftp Demo.rename_fails Demo.mt_two tt
       Demo.empty_dir).1 !! "db/nbs_table_001" = Some [x01; x02; x03] ∧
  Nbs.w_fs
    (Demo.Persist Demo.ftp Demo.rename_fails Demo.mt_two tt
       Demo.empty_dir).1 !! "db/t7" = None.
Proof. vm_compute. done. Qed.

Example temp_file_renamed :
  (Demo.Persist Demo.ftp Demo.all_ok Demo.mt_two tt Demo.empty_dir).2
    = (Some Demo.opened, None) ∧
  Nbs.w_fs
    (Demo.Persist Demo.ftp Demo.all_ok Demo.mt_two tt
       Demo.empty_dir).1 !! "db/nbs_table_001" = None ∧
  Nbs.w_fs
    (Demo.Persist Demo.ftp Demo.all_ok Demo.mt_two tt
       Demo.empty_dir).1 !! "db/t7" = Some [x01; x02; x03].
Proof. vm_compute. done. Qed.

(** An instance of X16: table 7 persisted and two tables conjoined into
    table 2, with a cache. *)
Lemma cache_called_for_new_table_only_witness :
  (@Nbs.mt_write _ Demo.collaborators Demo.mt_two tt
     = (7%N, [x01; x02; x03], 2, None) →
   (Nbs.cache_calls
      (Nbs.w_log
         (Demo.Persist Demo.ftp Demo.all_ok Demo.mt_two tt Demo.empty_dir).1)
      = Nbs.cache_calls (Nbs.w_log Demo.empty_dir)
    ∨ (Nbs.indexCache Demo.ftp = true ∧
       (@Nbs.parseTableIndex Demo.externals [x01; x02; x03]).2 = None ∧
       Nbs.cache_calls
         (Nbs.w_log
            (Demo.Persist Demo.ftp Demo.all_ok Demo.mt_two tt
               Demo.empty_dir).1)
       = Nbs.cache_calls (Nbs.w_log Demo.empty_dir)
           ++ [Nbs.EvLockEntry 7%N; Nbs.EvPut 7%N; Nbs.EvUnlockEntry 7%N])) ∧
   (Nbs.indexCache Demo.ftp = true → (None : option error) = None → 2 ≠ 0 →
    (Demo.Persist Demo.ftp Demo.all_ok Demo.mt_two tt Demo.empty_dir).2.2
      = None →
    Nbs.cache_calls
      (Nbs.w_log
         (Demo.Persist Demo.ftp Demo.all_ok Demo.mt_two tt Demo.empty_dir).1)
    = Nbs.cache_calls (Nbs.w_log Demo.empty_dir)
        ++ [Nbs.EvLockEntry 7%N; Nbs.EvPut 7%N; Nbs.EvUnlockEntry 7%N]))
  ∧ (@Nbs.planConjoin _ Demo.collaborators [Demo.src_a; Demo.src_b]
       = (Nbs.mkPlan
            [Nbs.mkSourceWithSize Demo.src_a 2;
             Nbs.mkSourceWithSize Demo.src_b 1]
            [x01; x02] 2 [x01; x02], None) →
     2 ≠ 0 →
     (Nbs.cache_calls
        (Nbs.w_log
           (Demo.ConjoinAll Demo.ftp Demo.all_ok [Demo.src_a; Demo.src_b]
              Demo.empty_dir).1)
        = Nbs.cache_calls (Nbs.w_log Demo.empty_dir)
      ∨ (Nbs.indexCache Demo.ftp = true ∧
         (@Nbs.parseTableIndex Demo.externals [x01; x02]).2 = None ∧
         Nbs.cache_calls
           (Nbs.w_log
              (Demo.ConjoinAll Demo.ftp Demo.all_ok [Demo.src_a; Demo.src_b]
                 Demo.empty_dir).1)
         = Nbs.cache_calls (Nbs.w_log Demo.empty_dir)
             ++ [Nbs.EvPut (@Nbs.nameFromSuffixes Demo.externals
                              [x01; x02])])) ∧
     (Nbs.indexCache Demo.ftp = true →
      (Demo.ConjoinAll Demo.ftp Demo.all_ok [Demo.src_a; Demo.src_b]
         Demo.empty_dir).2.2 = None →
      Nbs.cache_calls
        (Nbs.w_log
           (Demo.ConjoinAll Demo.ftp Demo.all_ok [Demo.src_a; Demo.src_b]
              Demo.empty_dir).1)
      = Nbs.cache_calls (Nbs.w_log Demo.empty_dir)
          ++ [Nbs.EvPut (@Nbs.nameFromSuffixes Demo.externals [x01; x02])])).
Proof.
  exact (@cache_called_for_new_table_only
           Demo.externals Demo.collaborators
           Demo.ftp Demo.all_ok Demo.mt_two tt [Demo.src_a; Demo.src_b]
           Demo.empty_dir 7%N [x01; x02; x03] 2 None
           (Nbs.mkPlan
              [Nbs.mkSourceWithSize Demo.src_a 2;
               Nbs.mkSourceWithSize Demo.src_b 1]
              [x01; x02] 2 [x01; x02])).
Defined.

(** A persister without a cache, and a table whose index is corrupt: no
    call reaches the cache. *)
Example no_cache_no_call :
  Nbs.cache_calls
    (Nbs.w_log
       (Demo.Persist (Nbs.mkPersister "db" false) Demo.all_ok Demo.mt_two tt
          Demo.empty_dir).1) = [] ∧
  Nbs.cache_calls
    (Nbs.w_log
       (Demo.Persist Demo.ftp Demo.all_ok Demo.mt_corrupt tt
          Demo.empty_dir).1) = [].
Proof. vm_compute. done. Qed.

(** An instance of X17: the temporary file cannot be closed. *)
Lemma deferred_error_aborts_Persist_witness :
  (Demo.Persist Demo.ftp Demo.close_fails Demo.mt_two tt Demo.empty_dir).2
    = (None, Some "close failed") ∧
  Nbs.w_log
    (Demo.Persist Demo.ftp Demo.close_fails Demo.mt_two tt Demo.empty_dir).1
  = Nbs.w_log Demo.empty_dir
      ++ [Nbs.EvTempFile (Nbs.dir Demo.ftp) Nbs.tempTablePrefix;
          Nbs.EvCopy (Nbs.temp_path Demo.ftp "001"); Nbs.EvParse]
      ++ (if Nbs.indexCache Demo.ftp
          then [Nbs.EvLockEntry 7%N; Nbs.EvPut 7%N; Nbs.EvUnlockEntry 7%N]
          else [])
      ++ [Nbs.EvClose (Nbs.temp_path Demo.ftp "001")] ∧
  Nbs.w_fs
    (Demo.Persist Demo.ftp Demo.close_fails Demo.mt_two tt Demo.empty_dir).1
    !! Demo.table_path 7
  = Nbs.w_fs Demo.empty_dir !! Demo.table_path 7 ∧
  Nbs.w_fs
    (Demo.Persist Demo.ftp Demo.close_fails Demo.mt_two tt Demo.empty_dir).1
    !! Nbs.temp_path Demo.ftp "001"
  = Some [x01; x02; x03].
Proof.
  apply (@deferred_error_aborts_Persist
           Demo.externals Demo.collaborators demo_names_apart
           Demo.ftp Demo.close_fails Demo.mt_two tt Demo.empty_dir
           7%N [x01; x02; x03] 2 "001" "close failed").
  - reflexivity.
  - lia.
  - reflexivity.
  - vm_compute. reflexivity.
  - reflexivity.
  - reflexivity.
  - reflexivity.
Defined.

(** The same table with an [unlockEntry] that fails: its error is
    returned, and the [Close] that follows is still made. *)
Example unlock_error_wins :
  (Demo.Persist Demo.ftp
     (Nbs.mkEnv ("001", None) None None (Some "close failed")
        (Some "unlock failed") None None (Some Demo.opened, None))
     Demo.mt_two tt Demo.empty_dir)
  = (Nbs.mkWorld {["db/nbs_table_001" := [x01; x02; x03]]}
       [Nbs.EvTempFile "db" "nbs_table_"; Nbs.EvCopy "db/nbs_table_001";
        Nbs.EvParse; Nbs.EvLockEntry 7%N; Nbs.EvPut 7%N;
        Nbs.EvUnlockEntry 7%N; Nbs.EvClose "db/nbs_table_001"],
     (None, Some "unlock failed")).
Proof. vm_compute. reflexivity. Qed.

(** An instance of X18: two sources that hold what the plan declares. *)
Lemma conjoin_success_copied_all_witness :
  Forall (@Nbs.copied_in_full Demo.externals)
    [Nbs.mkSourceWithSize Demo.src_a 2; Nbs.mkSourceWithSize Demo.src_b 1].
Proof.
  apply (@conjoin_success_copied_all
           Demo.externals Demo.collaborators demo_names_apart
           Demo.ftp Demo.all_ok [Demo.src_a; Demo.src_b] Demo.empty_dir
           (Nbs.mkPlan
              [Nbs.mkSourceWithSize Demo.src_a 2;
               Nbs.mkSourceWithSize Demo.src_b 1]
              [x01; x02] 2 [x01; x02])).
  - reflexivity.
  - simpl. lia.
  - vm_compute. reflexivity.
Defined.
